(** * Football League Manager: the domain model (Player, Team, League)

    A shallow embedding of the three model classes of the repository
    ([Player.js], [Team.js], [League.js]) and the properties of the
    specification that concern them.

    Conventions of the embedding.
    - JavaScript numbers that the model receives are integers (the callers
      parse form fields with [parseInt] and reject [NaN]); they are [Z].
      The one place where the code leaves the integers,
      [Math.round((pace + shooting + passing) / 3)], is computed over the
      rationals [Q].
    - A JavaScript number is an IEEE 754 binary64 value, and [+] and [-]
      round.  On integers they are exact, and are the [+] and [-] of [Z],
      as long as the operands and the result are safe integers (at most
      2^53 - 1 in magnitude); beyond that the source rounds and [Z] does
      not.  [Number] is the binary64 arithmetic itself, [Team64] and
      [League64] are the statistics code over it.  The theorems that
      promise an exact sum or difference of statistics carry the safe
      integer condition and prove that the binary64 code computes what
      the integer model computes.
    - Objects are mutable and shared by reference.  A Team holds references
      to its Players and a League references to its Teams, so objects live
      in heaps ([gmap loc _]) and the collections are lists of locations.
    - A method that ends in [console.error(msg); return false] returns
      [Error msg]; [return true] is [Ok]. *)

From stdpp Require Import gmap strings list fin_maps sorting.
From Stdlib Require Import ZArith QArith Qround Qabs Lqa Lia SpecFloat.

Open Scope Z_scope.

(** ** JavaScript built-ins used by the model *)

(** Object identity. *)
Abbreviation loc := positive.

(** What a caller may pass where an object is expected; [instanceof]
    inspects the tag. *)
Inductive value :=
| VPlayer (l : loc)
| VTeam (l : loc)
| VOther.

(** [Ok] is [return true]; [Error msg] is [console.error(msg); return false]. *)
Inductive result :=
| Ok
| Error (msg : string).

(** [Math.round]: the integer nearest to [x], halves going up. *)
Definition Math_round (x : Q) : Z := Qfloor (x + (1 # 2))%Q.

(** [Array.prototype.findIndex]: the index of the first element that
    satisfies [f], or [-1]. *)
Fixpoint findIndex_from {A} (f : A -> bool) (l : list A) (i : Z) : Z :=
  match l with
  | [] => -1
  | x :: l' => if f x then i else findIndex_from f l' (i + 1)
  end.

Definition Array_findIndex {A} (f : A -> bool) (l : list A) : Z :=
  findIndex_from f l 0.

(** [Array.prototype.find]: the first element that satisfies [f], or
    [undefined] ([None]). *)
Fixpoint Array_find {A} (f : A -> bool) (l : list A) : option A :=
  match l with
  | [] => None
  | x :: l' => if f x then Some x else Array_find f l'
  end.

(** [Array.prototype.splice(start, 1)]: a negative [start] counts from the
    end, a [start] beyond the end removes nothing. *)
Definition Array_splice1 {A} (l : list A) (start : Z) : list A :=
  let len := Z.of_nat (length l) in
  let actualStart :=
    if start <? 0 then Z.max (len + start) 0 else Z.min start len in
  take (Z.to_nat actualStart) l ++ drop (S (Z.to_nat actualStart)) l.

(** [Array.prototype.sort(cmp)].  ECMAScript (2019 and later) requires the
    sort to be stable; for a consistent comparator the result is then
    determined by the contract (see [stable_sort_unique] below), and this
    insertion sort computes it.  [cmp a b > 0] means that [a] goes after
    [b]. *)
Fixpoint sort_insert {A} (cmp : A -> A -> Z) (x : A) (l : list A) : list A :=
  match l with
  | [] => [x]
  | y :: l' => if 0 <? cmp x y then y :: sort_insert cmp x l' else x :: y :: l'
  end.

Definition Array_sort {A} (cmp : A -> A -> Z) (l : list A) : list A :=
  foldr (sort_insert cmp) [] l.

(** ** Player *)

Module Player.

Record t := mk {
  name : string;
  position : string;
  age : Z;
  nationality : string;
  jerseyNumber : Z;
  pace : Z;
  shooting : Z;
  passing : Z;
  overallRating : Z;
  isInjured : bool;
  yellowCards : Z;
  redCards : Z
}.

(** Field assignments [this.f = v]. *)
Definition set_pace (v : Z) (p : t) : t :=
  mk (name p) (position p) (age p) (nationality p) (jerseyNumber p)
     v (shooting p) (passing p) (overallRating p)
     (isInjured p) (yellowCards p) (redCards p).
Definition set_shooting (v : Z) (p : t) : t :=
  mk (name p) (position p) (age p) (nationality p) (jerseyNumber p)
     (pace p) v (passing p) (overallRating p)
     (isInjured p) (yellowCards p) (redCards p).
Definition set_passing (v : Z) (p : t) : t :=
  mk (name p) (position p) (age p) (nationality p) (jerseyNumber p)
     (pace p) (shooting p) v (overallRating p)
     (isInjured p) (yellowCards p) (redCards p).
Definition set_overallRating (v : Z) (p : t) : t :=
  mk (name p) (position p) (age p) (nationality p) (jerseyNumber p)
     (pace p) (shooting p) (passing p) v
     (isInjured p) (yellowCards p) (redCards p).
Definition set_isInjured (v : bool) (p : t) : t :=
  mk (name p) (position p) (age p) (nationality p) (jerseyNumber p)
     (pace p) (shooting p) (passing p) (overallRating p)
     v (yellowCards p) (redCards p).
Definition set_yellowCards (v : Z) (p : t) : t :=
  mk (name p) (position p) (age p) (nationality p) (jerseyNumber p)
     (pace p) (shooting p) (passing p) (overallRating p)
     (isInjured p) v (redCards p).
Definition set_redCards (v : Z) (p : t) : t :=
  mk (name p) (position p) (age p) (nationality p) (jerseyNumber p)
     (pace p) (shooting p) (passing p) (overallRating p)
     (isInjured p) (yellowCards p) v.

(** [Math.max(1, Math.min(10, value))] *)
Definition validateAttribute (value : Z) : Z :=
  Z.max 1 (Z.min 10 value).

(** [Math.round((this.pace + this.shooting + this.passing) / 3)] *)
Definition calculateOverallRating (this : t) : Z :=
  Math_round (inject_Z (pace this + shooting this + passing this) / 3)%Q.

(** The constructor; an omitted optional argument is [None]. *)
Definition constructor (name position : string) (pace shooting passing : Z)
    (age : option Z) (nationality : option string)
    (jerseyNumber : option Z) : t :=
  let this :=
    mk name position (default 25 age) (default "Unknown"%string nationality)
       (default 0 jerseyNumber)
       (validateAttribute pace) (validateAttribute shooting)
       (validateAttribute passing)
       0 false 0 0 in
  set_overallRating (calculateOverallRating this) this.

Definition updateStats (this : t) (newPace newShooting newPassing : Z) : t :=
  let this := set_pace (validateAttribute newPace) this in
  let this := set_shooting (validateAttribute newShooting) this in
  let this := set_passing (validateAttribute newPassing) this in
  set_overallRating (calculateOverallRating this) this.

Definition setInjuryStatus (this : t) (isInjured : bool) : t :=
  set_isInjured isInjured this.

Definition addCard (this : t) (cardType : string) : t :=
  if String.eqb cardType "yellow" then
    let this := set_yellowCards (yellowCards this + 1) this in
    if 2 <=? yellowCards this then
      let this := set_redCards (redCards this + 1) this in
      set_yellowCards 0 this
    else this
  else if String.eqb cardType "red" then
    set_redCards (redCards this + 1) this
  else this.

Record skills_info := mk_skills {
  i_pace : Z; i_shooting : Z; i_passing : Z; i_overall : Z
}.

Record status_info := mk_status {
  i_isInjured : bool; i_yellowCards : Z; i_redCards : Z
}.

Record info := mk_info {
  i_name : string;
  i_position : string;
  i_age : Z;
  i_nationality : string;
  i_jerseyNumber : Z;
  i_stats : skills_info;
  i_status : status_info
}.

Definition getPlayerInfo (this : t) : info :=
  mk_info (name this) (position this) (age this) (nationality this)
    (jerseyNumber this)
    (mk_skills (pace this) (shooting this) (passing this)
       (overallRating this))
    (mk_status (isInjured this) (yellowCards this) (redCards this)).

(** The mutating methods of a Player, as data. *)
Inductive call :=
| UpdateStats (newPace newShooting newPassing : Z)
| SetInjuryStatus (isInjured : bool)
| AddCard (cardType : string).

Definition perform (this : t) (c : call) : t :=
  match c with
  | UpdateStats a b c => updateStats this a b c
  | SetInjuryStatus b => setInjuryStatus this b
  | AddCard k => addCard this k
  end.

Definition perform_all (this : t) (cs : list call) : t :=
  foldl perform this cs.

End Player.

(** ** Team *)

Module Team.

Record t := mk {
  name : string;
  city : string;
  stadium : string;
  players : list loc;
  points : Z;
  goalsFor : Z;
  goalsAgainst : Z
}.

Definition set_players (v : list loc) (tm : t) : t :=
  mk (name tm) (city tm) (stadium tm) v
     (points tm) (goalsFor tm) (goalsAgainst tm).
Definition set_points (v : Z) (tm : t) : t :=
  mk (name tm) (city tm) (stadium tm) (players tm)
     v (goalsFor tm) (goalsAgainst tm).
Definition set_goalsFor (v : Z) (tm : t) : t :=
  mk (name tm) (city tm) (stadium tm) (players tm)
     (points tm) v (goalsAgainst tm).
Definition set_goalsAgainst (v : Z) (tm : t) : t :=
  mk (name tm) (city tm) (stadium tm) (players tm)
     (points tm) (goalsFor tm) v.

Definition constructor (name : string) (city stadium : option string) : t :=
  mk name (default "Unknown"%string city) (default "Unknown"%string stadium)
     [] 0 0 0.

(** [player instanceof Player] *)
Definition instanceof_Player (v : value) : option loc :=
  match v with VPlayer l => Some l | _ => None end.

Definition addPlayer (this : t) (player : value) : result * t :=
  match instanceof_Player player with
  | None => (Error "Invalid player object", this)
  | Some l => (Ok, set_players (players this ++ [l]) this)
  end.

(** The arrow function [p => p.name === playerName], on a reference. *)
Definition named (ph : gmap loc Player.t) (playerName : string) (l : loc) : bool :=
  match ph !! l with
  | Some p => String.eqb (Player.name p) playerName
  | None => false
  end.

Definition removePlayer (ph : gmap loc Player.t) (this : t)
    (playerName : string) : result * t :=
  let index := Array_findIndex (named ph playerName) (players this) in
  if index =? -1 then (Error "Player not found", this)
  else (Ok, set_players (Array_splice1 (players this) index) this).

(** [find(...) || null]: an object is truthy, so [null] arises only from
    [undefined]. *)
Definition getPlayer (ph : gmap loc Player.t) (this : t)
    (playerName : string) : option loc :=
  Array_find (named ph playerName) (players this).

(** [updateStats] in the arithmetic of [Z]: the source's [+=] wherever
    operands and results are safe integers ([Team64.updateStats] is the
    method over binary64 numbers). *)
Definition updateStats (this : t) (goalsScored goalsConceded pointsEarned : Z) : t :=
  let this := set_goalsFor (goalsFor this + goalsScored) this in
  let this := set_goalsAgainst (goalsAgainst this + goalsConceded) this in
  set_points (points this + pointsEarned) this.

Record stats_info := mk_stats {
  i_points : Z;
  i_goalsFor : Z;
  i_goalsAgainst : Z;
  i_goalDifference : Z
}.

Record info := mk_info {
  i_name : string;
  i_city : string;
  i_stadium : string;
  i_players : list Player.info;
  i_stats : stats_info
}.

(** [this.players.map(player => player.getPlayerInfo())] reads every
    referenced Player. *)
Definition players_info (ph : gmap loc Player.t) (ls : list loc) : list Player.info :=
  omap (fun l => Player.getPlayerInfo <$> ph !! l) ls.

(** [getTeamInfo], with [goalDifference] in the arithmetic of [Z]: the
    source's [-] wherever operands and result are safe integers
    ([Team64.getTeamInfo_stats] is the [stats] entry over binary64
    numbers). *)
Definition getTeamInfo (ph : gmap loc Player.t) (this : t) : info :=
  mk_info (name this) (city this) (stadium this)
    (players_info ph (players this))
    (mk_stats (points this) (goalsFor this) (goalsAgainst this)
       (goalsFor this - goalsAgainst this)).

End Team.

(** ** League *)

Module League.

Record match_record := mk_match {
  homeTeam : string;
  awayTeam : string;
  homeGoals : Z;
  awayGoals : Z;
  date : Z
}.

Record t := mk {
  name : string;
  country : string;
  teams : list loc;
  matches : list match_record
}.

Definition set_teams (v : list loc) (lg : t) : t :=
  mk (name lg) (country lg) v (matches lg).
Definition set_matches (v : list match_record) (lg : t) : t :=
  mk (name lg) (country lg) (teams lg) v.

Definition constructor (name : string) (country : option string) : t :=
  mk name (default "Unknown"%string country) [] [].

(** [team instanceof Team] *)
Definition instanceof_Team (v : value) : option loc :=
  match v with VTeam l => Some l | _ => None end.

Definition addTeam (this : t) (team : value) : result * t :=
  match instanceof_Team team with
  | None => (Error "Invalid team object", this)
  | Some l => (Ok, set_teams (teams this ++ [l]) this)
  end.

(** The arrow function [t => t.name === teamName], on a reference. *)
Definition named (th : gmap loc Team.t) (teamName : string) (l : loc) : bool :=
  match th !! l with
  | Some tm => String.eqb (Team.name tm) teamName
  | None => false
  end.

Definition removeTeam (th : gmap loc Team.t) (this : t)
    (teamName : string) : result * t :=
  let index := Array_findIndex (named th teamName) (teams this) in
  if index =? -1 then (Error "Team not found", this)
  else (Ok, set_teams (Array_splice1 (teams this) index) this).

Definition getTeam (th : gmap loc Team.t) (this : t)
    (teamName : string) : option loc :=
  Array_find (named th teamName) (teams this).

(** [homeTeam.updateStats(...)] through the reference. *)
Definition call_updateStats (th : gmap loc Team.t) (l : loc)
    (goalsScored goalsConceded pointsEarned : Z) : gmap loc Team.t :=
  match th !! l with
  | Some tm => <[l := Team.updateStats tm goalsScored goalsConceded pointsEarned]> th
  | None => th
  end.

(** [recordMatch]; [now] is what [new Date()] reads off the clock.  The
    Teams are updated in the heap, in the order of the source: the home
    team first, then the away team, which may be the same object. *)
Definition recordMatch (th : gmap loc Team.t) (this : t)
    (homeTeamName awayTeamName : string) (homeGoals awayGoals : Z)
    (now : Z) : result * (gmap loc Team.t * t) :=
  match getTeam th this homeTeamName, getTeam th this awayTeamName with
  | Some homeTeam, Some awayTeam =>
      let '(homePoints, awayPoints) :=
        if homeGoals >? awayGoals then (3, 0)
        else if homeGoals <? awayGoals then (0, 3)
        else (1, 1) in
      let th := call_updateStats th homeTeam homeGoals awayGoals homePoints in
      let th := call_updateStats th awayTeam awayGoals homeGoals awayPoints in
      (Ok, (th, set_matches
                  (matches this ++
                   [mk_match homeTeamName awayTeamName homeGoals awayGoals now])
                  this))
  | _, _ => (Error "One or both teams not found", (th, this))
  end.

(** The comparator of [getStandings]. *)
Definition compare_standing (a b : Team.info) : Z :=
  let pa := Team.i_points (Team.i_stats a) in
  let pb := Team.i_points (Team.i_stats b) in
  if negb (pb =? pa) then pb - pa
  else Team.i_goalDifference (Team.i_stats b)
       - Team.i_goalDifference (Team.i_stats a).

(** [this.teams.map(team => team.getTeamInfo())] *)
Definition teams_info (ph : gmap loc Player.t) (th : gmap loc Team.t)
    (ls : list loc) : list Team.info :=
  omap (fun l => Team.getTeamInfo ph <$> th !! l) ls.

Definition getStandings (ph : gmap loc Player.t) (th : gmap loc Team.t)
    (this : t) : list Team.info :=
  Array_sort compare_standing (teams_info ph th (teams this)).

Record info := mk_info {
  i_name : string;
  i_country : string;
  i_teams : list Team.info;
  i_matches : list match_record;
  i_standings : list Team.info
}.

Definition getLeagueInfo (ph : gmap loc Player.t) (th : gmap loc Team.t)
    (this : t) : info :=
  mk_info (name this) (country this)
    (teams_info ph th (teams this))
    (matches this)
    (getStandings ph th this).

End League.

(** ** The whole model: the object heaps and the league *)

Record world := mk_world {
  player_objs : gmap loc Player.t;
  team_objs : gmap loc Team.t;
  league : League.t
}.

(** Method calls on the model other than [League.recordMatch] (and the
    [Team.updateStats] it is built from).  A receiver is a reference. *)
Inductive operation :=
| NewPlayer (name position : string) (pace shooting passing : Z)
    (age : option Z) (nationality : option string) (jerseyNumber : option Z)
| PlayerCall (p : loc) (c : Player.call)
| PlayerGetPlayerInfo (p : loc)
| NewTeam (name : string) (city stadium : option string)
| TeamAddPlayer (tm : loc) (player : value)
| TeamRemovePlayer (tm : loc) (playerName : string)
| TeamGetPlayer (tm : loc) (playerName : string)
| TeamGetTeamInfo (tm : loc)
| LeagueAddTeam (team : value)
| LeagueRemoveTeam (teamName : string)
| LeagueGetTeam (teamName : string)
| LeagueGetStandings
| LeagueGetLeagueInfo.

(** An operation on a reference that holds no object of the expected class
    cannot be written in the source; it is a no-op here. *)
Definition on_player (w : world) (p : loc) (f : Player.t -> Player.t) : world :=
  match player_objs w !! p with
  | Some o => mk_world (<[p := f o]> (player_objs w)) (team_objs w) (league w)
  | None => w
  end.

Definition on_team (w : world) (tm : loc) (f : Team.t -> Team.t) : world :=
  match team_objs w !! tm with
  | Some o => mk_world (player_objs w) (<[tm := f o]> (team_objs w)) (league w)
  | None => w
  end.

Definition execute (w : world) (o : operation) : world :=
  match o with
  | NewPlayer n pos a b c ag nat j =>
      mk_world
        (<[fresh (dom (player_objs w)) := Player.constructor n pos a b c ag nat j]>
           (player_objs w))
        (team_objs w) (league w)
  | PlayerCall p c => on_player w p (fun o => Player.perform o c)
  | NewTeam n c s =>
      mk_world (player_objs w)
        (<[fresh (dom (team_objs w)) := Team.constructor n c s]> (team_objs w))
        (league w)
  | TeamAddPlayer tm v => on_team w tm (fun o => snd (Team.addPlayer o v))
  | TeamRemovePlayer tm n =>
      on_team w tm (fun o => snd (Team.removePlayer (player_objs w) o n))
  | LeagueAddTeam v =>
      mk_world (player_objs w) (team_objs w) (snd (League.addTeam (league w) v))
  | LeagueRemoveTeam n =>
      mk_world (player_objs w) (team_objs w)
        (snd (League.removeTeam (team_objs w) (league w) n))
  | PlayerGetPlayerInfo _ | TeamGetPlayer _ _ | TeamGetTeamInfo _
  | LeagueGetTeam _ | LeagueGetStandings | LeagueGetLeagueInfo => w
  end.

(** [League.recordMatch] on the whole model. *)
Definition execute_recordMatch (w : world) (homeTeamName awayTeamName : string)
    (homeGoals awayGoals now : Z) : result * world :=
  let '(r, (th, lg)) :=
    League.recordMatch (team_objs w) (league w)
      homeTeamName awayTeamName homeGoals awayGoals now in
  (r, mk_world (player_objs w) th lg).

(** The statistics of the Team behind a reference. *)
Definition stats_of (th : gmap loc Team.t) (l : loc) : option (Z * Z * Z) :=
  (fun tm => (Team.points tm, Team.goalsFor tm, Team.goalsAgainst tm)) <$> th !! l.

(** A statistic of the Team behind a reference. *)
Definition stat (f : Team.t -> Z) (th : gmap loc Team.t) (l : loc) : Z :=
  from_option f 0 (th !! l).

(** A statistic summed over the Teams of the league. *)
Definition total (f : Team.t -> Z) (th : gmap loc Team.t) (ls : list loc) : Z :=
  foldr (fun l acc => stat f th l + acc) 0 ls.

Definition league_total (f : Team.t -> Z) (w : world) : Z :=
  total f (team_objs w) (League.teams (league w)).

(** ** Predicates of the specification *)

(** The specification's rounding: [r] is an integer nearest to [x], and of
    two nearest integers the greater one (round half up). *)
Definition rounds_half_up (x : Q) (r : Z) : Prop :=
  (forall k : Z, (Qabs (x - inject_Z r) <= Qabs (x - inject_Z k))%Q) /\
  (forall k : Z, (Qabs (x - inject_Z k) == Qabs (x - inject_Z r))%Q -> k <= r).

(** The average of the three skills. *)
Definition average (p : Player.t) : Q :=
  (inject_Z (Player.pace p + Player.shooting p + Player.passing p) / 3)%Q.

Definition rating_consistent (p : Player.t) : Prop :=
  rounds_half_up (average p) (Player.overallRating p).

(** The skills and the rating as one tuple. *)
Definition skills (p : Player.t) : Z * Z * Z * Z :=
  (Player.pace p, Player.shooting p, Player.passing p, Player.overallRating p).

(** The card tallies. *)
Definition cards_ok (p : Player.t) : Prop :=
  (Player.yellowCards p = 0 \/ Player.yellowCards p = 1) /\
  0 <= Player.redCards p.

(** No Player of a roster, resp. no Team of a league, has the name [n]. *)
Definition no_player_named (ph : gmap loc Player.t) (n : string)
    (ls : list loc) : Prop :=
  forall l p, l ∈ ls -> ph !! l = Some p -> Player.name p <> n.

Definition no_team_named (th : gmap loc Team.t) (n : string)
    (ls : list loc) : Prop :=
  forall l tm, l ∈ ls -> th !! l = Some tm -> Team.name tm <> n.

(** What [recordMatch home away homeGoals awayGoals] is specified to do
    when the names resolve to the Teams [h] and [a]: it succeeds, awards
    the points of the result, adds the goals, and appends one record to
    the match log. *)
Definition recordMatch_effect (th : gmap loc Team.t) (lg : League.t)
    (home away : string) (homeGoals awayGoals now : Z) (h a : loc) : Prop :=
  let out := League.recordMatch th lg home away homeGoals awayGoals now in
  let th' := fst (snd out) in
  let lg' := snd (snd out) in
  fst out = Ok /\
  is_Some (th' !! h) /\ is_Some (th' !! a) /\
  (homeGoals > awayGoals ->
     stat Team.points th' h = stat Team.points th h + 3 /\
     stat Team.points th' a = stat Team.points th a + 0) /\
  (homeGoals < awayGoals ->
     stat Team.points th' a = stat Team.points th a + 3 /\
     stat Team.points th' h = stat Team.points th h + 0) /\
  (homeGoals = awayGoals ->
     stat Team.points th' h = stat Team.points th h + 1 /\
     stat Team.points th' a = stat Team.points th a + 1) /\
  stat Team.goalsFor th' h = stat Team.goalsFor th h + homeGoals /\
  stat Team.goalsAgainst th' h = stat Team.goalsAgainst th h + awayGoals /\
  stat Team.goalsFor th' a = stat Team.goalsFor th a + awayGoals /\
  stat Team.goalsAgainst th' a = stat Team.goalsAgainst th a + homeGoals /\
  League.matches lg' =
    League.matches lg ++ [League.mk_match home away homeGoals awayGoals now].

(** The points rule, per side. *)
Definition home_award (homeGoals awayGoals : Z) : Z :=
  if homeGoals >? awayGoals then 3 else if homeGoals <? awayGoals then 0 else 1.

Definition away_award (homeGoals awayGoals : Z) : Z :=
  if homeGoals >? awayGoals then 0 else if homeGoals <? awayGoals then 3 else 1.

(** By how much an operation changes a league total: [addTeam] brings
    the statistics of the Team it adds, [removeTeam] takes away those of
    the Team it removes, nothing else counts. *)
Definition membership_delta (f : Team.t -> Z) (w : world) (o : operation) : Z :=
  match o with
  | LeagueAddTeam v =>
      match League.instanceof_Team v with
      | Some l => stat f (team_objs w) l
      | None => 0
      end
  | LeagueRemoveTeam n =>
      match League.getTeam (team_objs w) (league w) n with
      | Some l => - stat f (team_objs w) l
      | None => 0
      end
  | _ => 0
  end.

Definition changes_membership (o : operation) : bool :=
  match o with
  | LeagueAddTeam _ | LeagueRemoveTeam _ => true
  | _ => false
  end.

(** The three statistics of a Team. *)
Definition is_statistic (f : Team.t -> Z) : Prop :=
  f = Team.points \/ f = Team.goalsFor \/ f = Team.goalsAgainst.

(** The sort key of a standings row, and the order of the table: more
    points first, then the greater goal difference. *)
Definition standing_key (a : Team.info) : Z * Z :=
  (Team.i_points (Team.i_stats a), Team.i_goalDifference (Team.i_stats a)).

Definition ranks_before (a b : Team.info) : Prop :=
  Team.i_points (Team.i_stats a) > Team.i_points (Team.i_stats b) \/
  (Team.i_points (Team.i_stats a) = Team.i_points (Team.i_stats b) /\
   Team.i_goalDifference (Team.i_stats a)
   >= Team.i_goalDifference (Team.i_stats b)).


(** ** Sample states *)

(** A league of one Team, "A", at reference 1. *)
Definition solo_teams : gmap loc Team.t :=
  {[ 1%positive := Team.constructor "A" None None ]}.

Definition solo_league : League.t :=
  League.set_teams [1%positive] (League.constructor "Solo" None).

Definition solo_world : world := mk_world ∅ solo_teams solo_league.

(** The world after: two Teams "A" and "B" are created and added to the
    league, and A beats B 3-1. *)
Definition empty_world : world := mk_world ∅ ∅ (League.constructor "L" None).

Definition two_teams_world : world :=
  foldl execute empty_world
    [NewTeam "A" None None; NewTeam "B" None None;
     LeagueAddTeam (VTeam 1%positive); LeagueAddTeam (VTeam 2%positive)].

Definition played_world : world :=
  snd (execute_recordMatch two_teams_world "A" "B" 3 1 1000).

(** Four Teams for a table: T1 (1 point, goal difference 0), T2 (3, -1),
    T3 (3, +2), and T4 with the points and goal difference of T2 but more
    goals scored. *)
Definition table_teams : gmap loc Team.t :=
  {[ 1%positive := Team.updateStats (Team.constructor "T1" None None) 0 0 1;
     2%positive := Team.updateStats (Team.constructor "T2" None None) 0 1 3;
     3%positive := Team.updateStats (Team.constructor "T3" None None) 2 0 3;
     4%positive := Team.updateStats (Team.constructor "T4" None None) 4 5 3 ]}.

Definition table_league (order : list loc) : League.t :=
  League.set_teams order (League.constructor "Table" None).

(** ** Auxiliary notions for the further properties *)

(** How many yellow, resp. red, cards a sequence of calls shows. *)
Definition shows_card (kind : string) (c : Player.call) : bool :=
  match c with
  | Player.AddCard k => String.eqb k kind
  | _ => false
  end.

Definition yellow_count (cs : list Player.call) : Z :=
  Z.of_nat (length (List.filter (shows_card "yellow") cs)).

Definition red_count (cs : list Player.call) : Z :=
  Z.of_nat (length (List.filter (shows_card "red") cs)).

(** The fields of a Player that no method writes after construction. *)
Definition identity_of (p : Player.t) : string * string * Z * string * Z :=
  (Player.name p, Player.position p, Player.age p, Player.nationality p,
   Player.jerseyNumber p).

(** A Player as the constructor and the methods leave it: the skills are
    in [1,10] and the stored rating is the computed one. *)
Definition well_formed (p : Player.t) : Prop :=
  1 <= Player.pace p <= 10 /\
  1 <= Player.shooting p <= 10 /\
  1 <= Player.passing p <= 10 /\
  Player.overallRating p = Player.calculateOverallRating p.

(** What a Team is apart from its statistics. *)
Definition description_of (th : gmap loc Team.t) (l : loc)
    : option (string * string * string * list loc) :=
  (fun tm => (Team.name tm, Team.city tm, Team.stadium tm, Team.players tm))
    <$> th !! l.

(** A result to record, and a series of [recordMatch] calls, one per
    result, in order. *)
Record fixture := mk_fixture {
  f_home : string;
  f_away : string;
  f_homeGoals : Z;
  f_awayGoals : Z;
  f_now : Z
}.

Definition play_one (s : gmap loc Team.t * League.t) (x : fixture)
    : gmap loc Team.t * League.t :=
  snd (League.recordMatch (fst s) (snd s)
         (f_home x) (f_away x) (f_homeGoals x) (f_awayGoals x) (f_now x)).

Definition play (s : gmap loc Team.t * League.t) (xs : list fixture)
    : gmap loc Team.t * League.t :=
  foldl play_one s xs.

(** Both names of the fixture are names of Teams of the league. *)
Definition resolvable (th : gmap loc Team.t) (lg : League.t) (x : fixture) : bool :=
  match League.getTeam th lg (f_home x), League.getTeam th lg (f_away x) with
  | Some _, Some _ => true
  | _, _ => false
  end.

Definition record_of (x : fixture) : League.match_record :=
  League.mk_match (f_home x) (f_away x) (f_homeGoals x) (f_awayGoals x) (f_now x).

(** ** JavaScript numbers and the statistics code over them *)

(** A JavaScript number is an IEEE 754 binary64 value; [+], [-], [<] and
    [>] are the operations of the standard, rounding to nearest, ties to
    even. *)
Module Number.

Definition prec : Z := 53.
Definition emax : Z := 1024.

Definition t : Type := spec_float.

(** The number that an integer literal denotes. *)
Definition of_Z (z : Z) : t := binary_normalize prec emax z 0 false.

Definition add (x y : t) : t := SFadd prec emax x y.
Definition sub (x y : t) : t := SFsub prec emax x y.
Definition ltb (x y : t) : bool := SFltb x y.
Definition gtb (x y : t) : bool := SFltb y x.

End Number.

(** [Number.isSafeInteger]: an integer of magnitude at most 2^53 - 1. *)
Definition safe_integer (z : Z) : Prop := - (2 ^ 53 - 1) <= z <= 2 ^ 53 - 1.

(** A bound that keeps every sum of four such integers safe. *)
Definition moderate (z : Z) : Prop := - 2 ^ 50 <= z <= 2 ^ 50.

(** The statistics of a Team as the source holds them. *)
Module Team64.

Record t := mk {
  name : string;
  city : string;
  stadium : string;
  players : list loc;
  points : Number.t;
  goalsFor : Number.t;
  goalsAgainst : Number.t
}.

Definition set_points (v : Number.t) (tm : t) : t :=
  mk (name tm) (city tm) (stadium tm) (players tm)
     v (goalsFor tm) (goalsAgainst tm).
Definition set_goalsFor (v : Number.t) (tm : t) : t :=
  mk (name tm) (city tm) (stadium tm) (players tm)
     (points tm) v (goalsAgainst tm).
Definition set_goalsAgainst (v : Number.t) (tm : t) : t :=
  mk (name tm) (city tm) (stadium tm) (players tm)
     (points tm) (goalsFor tm) v.

Definition constructor (name : string) (city stadium : option string) : t :=
  mk name (default "Unknown"%string city) (default "Unknown"%string stadium)
     [] (Number.of_Z 0) (Number.of_Z 0) (Number.of_Z 0).

Definition updateStats (this : t)
    (goalsScored goalsConceded pointsEarned : Number.t) : t :=
  let this := set_goalsFor (Number.add (goalsFor this) goalsScored) this in
  let this :=
    set_goalsAgainst (Number.add (goalsAgainst this) goalsConceded) this in
  set_points (Number.add (points this) pointsEarned) this.

Record stats_info := mk_stats {
  i_points : Number.t;
  i_goalsFor : Number.t;
  i_goalsAgainst : Number.t;
  i_goalDifference : Number.t
}.

(** The [stats] entry of [getTeamInfo]. *)
Definition getTeamInfo_stats (this : t) : stats_info :=
  mk_stats (points this) (goalsFor this) (goalsAgainst this)
    (Number.sub (goalsFor this) (goalsAgainst this)).

(** A Team of the integer model, with its statistics as numbers. *)
Definition of_model (tm : Team.t) : t :=
  mk (Team.name tm) (Team.city tm) (Team.stadium tm) (Team.players tm)
     (Number.of_Z (Team.points tm)) (Number.of_Z (Team.goalsFor tm))
     (Number.of_Z (Team.goalsAgainst tm)).

End Team64.

(** [League.recordMatch] as the source computes it. *)
Module League64.

Record match_record := mk_match {
  homeTeam : string;
  awayTeam : string;
  homeGoals : Number.t;
  awayGoals : Number.t;
  date : Z
}.

Record t := mk {
  name : string;
  country : string;
  teams : list loc;
  matches : list match_record
}.

Definition set_matches (v : list match_record) (lg : t) : t :=
  mk (name lg) (country lg) (teams lg) v.

Definition named (th : gmap loc Team64.t) (teamName : string) (l : loc) : bool :=
  match th !! l with
  | Some tm => String.eqb (Team64.name tm) teamName
  | None => false
  end.

Definition getTeam (th : gmap loc Team64.t) (this : t)
    (teamName : string) : option loc :=
  Array_find (named th teamName) (teams this).

Definition call_updateStats (th : gmap loc Team64.t) (l : loc)
    (goalsScored goalsConceded pointsEarned : Number.t) : gmap loc Team64.t :=
  match th !! l with
  | Some tm =>
      <[l := Team64.updateStats tm goalsScored goalsConceded pointsEarned]> th
  | None => th
  end.

Definition recordMatch (th : gmap loc Team64.t) (this : t)
    (homeTeamName awayTeamName : string) (homeGoals awayGoals : Number.t)
    (now : Z) : result * (gmap loc Team64.t * t) :=
  match getTeam th this homeTeamName, getTeam th this awayTeamName with
  | Some homeTeam, Some awayTeam =>
      let '(homePoints, awayPoints) :=
        if Number.gtb homeGoals awayGoals then (Number.of_Z 3, Number.of_Z 0)
        else if Number.ltb homeGoals awayGoals
             then (Number.of_Z 0, Number.of_Z 3)
             else (Number.of_Z 1, Number.of_Z 1) in
      let th := call_updateStats th homeTeam homeGoals awayGoals homePoints in
      let th := call_updateStats th awayTeam awayGoals homeGoals awayPoints in
      (Ok, (th, set_matches
                  (matches this ++
                   [mk_match homeTeamName awayTeamName homeGoals awayGoals now])
                  this))
  | _, _ => (Error "One or both teams not found", (th, this))
  end.

(** A league, a heap and an outcome of the integer model, with the
    numbers that their integers denote. *)
Definition of_match (r : League.match_record) : match_record :=
  mk_match (League.homeTeam r) (League.awayTeam r)
    (Number.of_Z (League.homeGoals r)) (Number.of_Z (League.awayGoals r))
    (League.date r).

Definition of_model (lg : League.t) : t :=
  mk (League.name lg) (League.country lg) (League.teams lg)
     (of_match <$> League.matches lg).

Definition of_heap (th : gmap loc Team.t) : gmap loc Team64.t :=
  Team64.of_model <$> th.

Definition of_state (s : gmap loc Team.t * League.t)
    : gmap loc Team64.t * t :=
  (of_heap (fst s), of_model (snd s)).

Definition of_outcome (out : result * (gmap loc Team.t * League.t))
    : result * (gmap loc Team64.t * t) :=
  (fst out, of_state (snd out)).

End League64.

(** A series of [recordMatch] calls as the source computes them; the
    goals of a fixture are the numbers that its integers denote. *)
Definition play64_one (s : gmap loc Team64.t * League64.t) (x : fixture)
    : gmap loc Team64.t * League64.t :=
  snd (League64.recordMatch (fst s) (snd s) (f_home x) (f_away x)
         (Number.of_Z (f_homeGoals x)) (Number.of_Z (f_awayGoals x))
         (f_now x)).

Definition play64 (s : gmap loc Team64.t * League64.t) (xs : list fixture)
    : gmap loc Team64.t * League64.t :=
  foldl play64_one s xs.

(** An update in which the source adds exactly: the statistics before,
    the three amounts and the statistics after are safe integers. *)
Definition exact_update (tm : Team.t) (gs gc pe : Z) : Prop :=
  (safe_integer (Team.goalsFor tm) /\ safe_integer gs /\
   safe_integer (Team.goalsFor tm + gs)) /\
  (safe_integer (Team.goalsAgainst tm) /\ safe_integer gc /\
   safe_integer (Team.goalsAgainst tm + gc)) /\
  (safe_integer (Team.points tm) /\ safe_integer pe /\
   safe_integer (Team.points tm + pe)).

(** A match in which the source compares and adds exactly: the goals are
    safe integers and, if both names resolve, so is every statistic that
    the two updates read and write. *)
Definition exact_match (th : gmap loc Team.t) (lg : League.t)
    (home away : string) (hg ag : Z) : Prop :=
  safe_integer hg /\ safe_integer ag /\
  forall h a,
    League.getTeam th lg home = Some h ->
    League.getTeam th lg away = Some a ->
    (forall tm, th !! h = Some tm ->
       exact_update tm hg ag (home_award hg ag)) /\
    (forall tm,
       League.call_updateStats th h hg ag (home_award hg ag) !! a = Some tm ->
       exact_update tm ag hg (away_award hg ag)).

(** A series every match of which is exact. *)
Fixpoint exact_series (s : gmap loc Team.t * League.t) (xs : list fixture)
    : Prop :=
  match xs with
  | [] => True
  | x :: xs =>
      exact_match (fst s) (snd s) (f_home x) (f_away x)
        (f_homeGoals x) (f_awayGoals x) /\
      exact_series (play_one s x) xs
  end.




(** A league of two new Teams, "A" and "B", over numbers; the state after
    A has beaten B 2^53 : 0. *)
Definition duo64_teams : gmap loc Team64.t :=
  {[ 1%positive := Team64.constructor "A" None None;
     2%positive := Team64.constructor "B" None None ]}.

Definition duo64_league : League64.t :=
  League64.mk "Duo" "Unknown" [1%positive; 2%positive] [].

Definition duo64_after_big_match : gmap loc Team64.t * League64.t :=
  snd (League64.recordMatch duo64_teams duo64_league "A" "B"
         (Number.of_Z (2 ^ 53)) (Number.of_Z 0) 1000).

(** * Properties *)

(** ** Player: clamping, rating, cards *)

Section PlayerFacts.

Implicit Types (p q : Player.t) (cs : list Player.call).

Lemma validateAttribute_range v : 1 <= Player.validateAttribute v <= 10.
Proof. unfold Player.validateAttribute. lia. Qed.

Lemma validateAttribute_fixed v :
  1 <= v <= 10 -> Player.validateAttribute v = v.
Proof. unfold Player.validateAttribute. lia. Qed.

(** [Math.round x] is within a half of [x], the upper half excluded. *)
Lemma Math_round_bounds (x : Q) :
  (inject_Z (Math_round x) - (1 # 2) <= x < inject_Z (Math_round x) + (1 # 2))%Q.
Proof.
  unfold Math_round.
  pose proof (Qfloor_le (x + (1 # 2))) as Hlo.
  pose proof (Qlt_floor (x + (1 # 2))) as Hhi.
  rewrite inject_Z_plus in Hhi.
  change (inject_Z 1) with 1%Q in Hhi.
  split; lra.
Qed.

Lemma inject_Z_succ_le (k r : Z) : k < r -> (inject_Z k <= inject_Z r - 1)%Q.
Proof.
  intros H. assert (Hk : k <= r + -1) by lia.
  rewrite Zle_Qle, inject_Z_plus in Hk.
  change (inject_Z (-1)) with (-1)%Q in Hk. lra.
Qed.

Lemma Math_round_half_up (x : Q) : rounds_half_up x (Math_round x).
Proof.
  pose proof (Math_round_bounds x) as [Hlo Hhi].
  set (r := Math_round x) in *.
  split; intros k.
  - destruct (Z.lt_trichotomy k r) as [Hk | [-> | Hk]].
    + apply inject_Z_succ_le in Hk.
      apply Qabs_case; intros; apply Qabs_case; intros; lra.
    + apply Qle_refl.
    + apply inject_Z_succ_le in Hk.
      apply Qabs_case; intros; apply Qabs_case; intros; lra.
  - intros Heq. destruct (Z_le_gt_dec k r) as [|Hk]; [assumption|].
    exfalso. assert (Hk' : r < k) by lia.
    apply inject_Z_succ_le in Hk'. revert Heq.
    apply Qabs_case; intros; revert Heq; apply Qabs_case; intros; lra.
Qed.

Lemma rating_consistent_constructor n pos a b c ag nat j :
  rating_consistent (Player.constructor n pos a b c ag nat j).
Proof. apply Math_round_half_up. Qed.

Lemma rating_consistent_updateStats p a b c :
  rating_consistent (Player.updateStats p a b c).
Proof. apply Math_round_half_up. Qed.

Lemma setInjuryStatus_skills p b : skills (Player.setInjuryStatus p b) = skills p.
Proof. reflexivity. Qed.

Lemma addCard_skills p k : skills (Player.addCard p k) = skills p.
Proof.
  unfold Player.addCard.
  destruct (String.eqb k "yellow"); [|destruct (String.eqb k "red")];
    [|reflexivity..].
  cbn. destruct (2 <=? _); reflexivity.
Qed.

Lemma rating_consistent_skills p q :
  skills p = skills q -> rating_consistent q -> rating_consistent p.
Proof.
  unfold skills, rating_consistent, average. intros [= -> -> -> ->]. auto.
Qed.

Lemma rating_consistent_perform p (c : Player.call) :
  rating_consistent p -> rating_consistent (Player.perform p c).
Proof.
  intros Hp. destruct c as [a b c | b | k]; cbn [Player.perform].
  - apply rating_consistent_updateStats.
  - exact Hp.
  - eapply rating_consistent_skills; [apply addCard_skills | exact Hp].
Qed.

Lemma rating_consistent_perform_all cs p :
  rating_consistent p -> rating_consistent (Player.perform_all p cs).
Proof.
  revert p. induction cs as [|c cs IH]; intros p Hp; [exact Hp|].
  apply IH, rating_consistent_perform, Hp.
Qed.

Lemma cards_ok_perform p (c : Player.call) : cards_ok p -> cards_ok (Player.perform p c).
Proof.
  unfold cards_ok. intros [Hy Hr].
  destruct c as [a b c | b | k]; cbn [Player.perform];
    [split; assumption..|].
  unfold Player.addCard.
  destruct (String.eqb k "yellow"); [|destruct (String.eqb k "red")].
  - cbn. destruct (Z.leb_spec 2 (Player.yellowCards p + 1)); cbn; lia.
  - cbn. lia.
  - split; assumption.
Qed.

Lemma cards_ok_perform_all cs p :
  cards_ok p -> cards_ok (Player.perform_all p cs).
Proof.
  revert p. induction cs as [|c cs IH]; intros p Hp; [exact Hp|].
  apply IH, cards_ok_perform, Hp.
Qed.

End PlayerFacts.

Section PlayerClaims.

Implicit Types (p : Player.t) (cs : list Player.call).

(** C5: the clamp [validateAttribute] yields a value in [1,10] for every
    input and is idempotent; the constructor and [updateStats] store every
    skill through it, so every stored skill is in [1,10]. *)
Theorem clamp_range_idempotent :
  (forall v, 1 <= Player.validateAttribute v <= 10) /\
  (forall v, Player.validateAttribute (Player.validateAttribute v)
             = Player.validateAttribute v) /\
  (forall n pos a b c ag nat j,
     let p := Player.constructor n pos a b c ag nat j in
     Player.pace p = Player.validateAttribute a /\
     Player.shooting p = Player.validateAttribute b /\
     Player.passing p = Player.validateAttribute c) /\
  (forall p a b c,
     let p' := Player.updateStats p a b c in
     Player.pace p' = Player.validateAttribute a /\
     Player.shooting p' = Player.validateAttribute b /\
     Player.passing p' = Player.validateAttribute c).
Proof.
  split; [exact validateAttribute_range|].
  split; [intros v; apply validateAttribute_fixed, validateAttribute_range|].
  split; intros; repeat split.
Qed.

(** C4: [overallRating] is the average of pace, shooting and passing
    rounded to the nearest integer, halves going up: right after
    construction, after every [updateStats], and after any sequence of
    Player operations; [setInjuryStatus] and [addCard] leave the skills and
    the rating as they are. *)
Theorem overallRating_round_half_up :
  (forall n pos a b c ag nat j,
     rating_consistent (Player.constructor n pos a b c ag nat j)) /\
  (forall p a b c, rating_consistent (Player.updateStats p a b c)) /\
  (forall p b, skills (Player.setInjuryStatus p b) = skills p) /\
  (forall p k, skills (Player.addCard p k) = skills p) /\
  (forall n pos a b c ag nat j cs,
     rating_consistent
       (Player.perform_all (Player.constructor n pos a b c ag nat j) cs)).
Proof.
  split; [exact rating_consistent_constructor|].
  split; [exact rating_consistent_updateStats|].
  split; [exact setInjuryStatus_skills|].
  split; [exact addCard_skills|].
  intros. apply rating_consistent_perform_all, rating_consistent_constructor.
Qed.

(** C4, on numbers: the rating in closed form, and three ratings computed. *)
Lemma calculateOverallRating_closed_form p :
  Player.calculateOverallRating p
  = (2 * (Player.pace p + Player.shooting p + Player.passing p) + 3) / 6.
Proof.
  unfold Player.calculateOverallRating.
  set (s := Player.pace p + Player.shooting p + Player.passing p).
  pose proof (Math_round_bounds (inject_Z s / 3)) as [Hlo Hhi].
  set (r := Math_round (inject_Z s / 3)) in *.
  assert (E : (inject_Z s / 3 * 3 == inject_Z s)%Q) by field.
  set (x := (inject_Z s / 3)%Q) in *.
  assert (Hlo' : (inject_Z (6 * r) <= inject_Z (2 * s + 3))%Q).
  { rewrite inject_Z_plus, !inject_Z_mult.
    change (inject_Z 6) with 6%Q. change (inject_Z 2) with 2%Q.
    change (inject_Z 3) with 3%Q. lra. }
  assert (Hhi' : (inject_Z (2 * s) < inject_Z (6 * r + 3))%Q).
  { rewrite inject_Z_plus, !inject_Z_mult.
    change (inject_Z 6) with 6%Q. change (inject_Z 2) with 2%Q.
    change (inject_Z 3) with 3%Q. lra. }
  rewrite <- Zle_Qle in Hlo'. rewrite <- Zlt_Qlt in Hhi'.
  apply Z.div_unique with (r := 2 * s + 3 - 6 * r); lia.
Qed.

Example overallRating_9_8_7 :
  Player.overallRating
    (Player.constructor "Player 1" "Forward" 9 8 7 None None None) = 8.
Proof. reflexivity. Qed.

Example overallRating_clamped :
  Player.overallRating
    (Player.constructor "P" "Defender" 15 (-4) 6 None None None) = 6.
Proof. reflexivity. Qed.

Example overallRating_6_4_6 :
  Player.overallRating
    (Player.updateStats
       (Player.constructor "Player 3" "Defender" 1 1 1 None None None) 6 4 6)
  = 5.
Proof. reflexivity. Qed.

(** C6: a yellow card increments the yellow tally and, when the tally
    reaches 2, becomes one more red card and a yellow tally of 0; a red
    card increments the red tally; any other kind changes nothing.  From a
    new player, one yellow gives (1, 0) and two yellows give (0, 1). *)
Theorem addCard_tallies :
  (forall p,
     let p' := Player.addCard p "yellow" in
     Player.yellowCards p' =
       (if 2 <=? Player.yellowCards p + 1 then 0 else Player.yellowCards p + 1) /\
     Player.redCards p' =
       (if 2 <=? Player.yellowCards p + 1 then Player.redCards p + 1
        else Player.redCards p)) /\
  (forall p,
     let p' := Player.addCard p "red" in
     Player.yellowCards p' = Player.yellowCards p /\
     Player.redCards p' = Player.redCards p + 1) /\
  (forall n pos a b c ag nat j,
     let p0 := Player.constructor n pos a b c ag nat j in
     let p1 := Player.addCard p0 "yellow" in
     let p2 := Player.addCard p1 "yellow" in
     (Player.yellowCards p1 = 1 /\ Player.redCards p1 = 0) /\
     (Player.yellowCards p2 = 0 /\ Player.redCards p2 = 1)).
Proof.
  split; [|split].
  - intros p. cbn. destruct (2 <=? Player.yellowCards p + 1); split; reflexivity.
  - intros p. split; reflexivity.
  - intros. repeat split.
Qed.

(** C9: after construction and any sequence of calls on a Player,
    [yellowCards] is 0 or 1 and [redCards] is not negative. *)
Theorem yellowCards_below_two n pos a b c ag nat j cs :
  let p := Player.perform_all (Player.constructor n pos a b c ag nat j) cs in
  (Player.yellowCards p = 0 \/ Player.yellowCards p = 1) /\
  0 <= Player.yellowCards p /\ 0 <= Player.redCards p.
Proof.
  intros p.
  assert (H : cards_ok p).
  { apply cards_ok_perform_all. split; [left; reflexivity | reflexivity]. }
  destruct H as [Hy Hr]. repeat split; [assumption | lia | assumption].
Qed.

End PlayerClaims.

(** ** Arrays: find, findIndex, splice *)

Section ArrayFacts.

Context {A : Type}.
Implicit Types (f : A -> bool) (l : list A) (x : A).

Lemma findIndex_from_miss f l i :
  Forall (fun x => f x = false) l -> findIndex_from f l i = -1.
Proof.
  intros H. revert i. induction H as [|x l Hx _ IH]; intros i; cbn.
  - reflexivity.
  - rewrite Hx. apply IH.
Qed.

Lemma findIndex_from_app_miss f l1 l2 i :
  Forall (fun x => f x = false) l1 ->
  findIndex_from f (l1 ++ l2) i = findIndex_from f l2 (i + Z.of_nat (length l1)).
Proof.
  intros H. revert i. induction H as [|x l Hx _ IH]; intros i; cbn [app length findIndex_from].
  - f_equal. lia.
  - rewrite Hx, IH. f_equal. lia.
Qed.

(** A hit: the index is in range, the element there satisfies [f], and no
    earlier one does. *)
Lemma findIndex_from_hit f l i :
  findIndex_from f l i <> -1 -> 0 <= i ->
  exists l1 x l2,
    l = l1 ++ x :: l2 /\ f x = true /\ Forall (fun y => f y = false) l1 /\
    findIndex_from f l i = i + Z.of_nat (length l1).
Proof.
  revert i. induction l as [|y l IH]; intros i Hne Hi; cbn in *.
  - congruence.
  - destruct (f y) eqn:Hy.
    + exists [], y, l. cbn. repeat split; [assumption | constructor | lia].
    + destruct (IH (i + 1) Hne ltac:(lia)) as (l1 & x & l2 & -> & Hx & Hl1 & E).
      exists (y :: l1), x, l2. cbn [app length].
      repeat split; [assumption | constructor; assumption | lia].
Qed.

Lemma Array_findIndex_miss f l :
  Forall (fun x => f x = false) l -> Array_findIndex f l = -1.
Proof. apply findIndex_from_miss. Qed.

Lemma Array_find_miss f l :
  Forall (fun x => f x = false) l -> Array_find f l = None.
Proof.
  induction 1 as [|x l Hx _ IH]; cbn; [reflexivity|]. rewrite Hx. exact IH.
Qed.

Lemma Array_find_None f l :
  Array_find f l = None -> Forall (fun x => f x = false) l.
Proof.
  induction l as [|x l IH]; cbn; [constructor|].
  destruct (f x) eqn:Hx; [discriminate|]. intros H. constructor; auto.
Qed.

Lemma Array_find_Some f l x :
  Array_find f l = Some x ->
  exists l1 l2,
    l = l1 ++ x :: l2 /\ f x = true /\ Forall (fun y => f y = false) l1.
Proof.
  induction l as [|y l IH]; cbn; [discriminate|].
  destruct (f y) eqn:Hy.
  - intros [= <-]. exists [], l. repeat split; [assumption | constructor].
  - intros H. destruct (IH H) as (l1 & l2 & -> & Hx & Hl1).
    exists (y :: l1), l2. repeat split; [assumption | constructor; assumption].
Qed.

(** [findIndex] and [find] agree on the element they point at. *)
Lemma Array_findIndex_find f l :
  Array_findIndex f l <> -1 ->
  exists l1 x l2,
    l = l1 ++ x :: l2 /\ Array_find f l = Some x /\
    Array_findIndex f l = Z.of_nat (length l1).
Proof.
  intros Hne. unfold Array_findIndex in *.
  destruct (findIndex_from_hit f l 0 Hne ltac:(lia))
    as (l1 & x & l2 & -> & Hx & Hl1 & E).
  exists l1, x, l2. repeat split; [|lia].
  clear E Hne. induction Hl1 as [|y l1 Hy _ IH]; cbn.
  - rewrite Hx. reflexivity.
  - rewrite Hy. exact IH.
Qed.

Lemma Array_splice1_middle l1 x l2 :
  Array_splice1 (l1 ++ x :: l2) (Z.of_nat (length l1)) = l1 ++ l2.
Proof.
  unfold Array_splice1.
  destruct (Z.ltb_spec (Z.of_nat (length l1)) 0); [lia|].
  rewrite length_app. cbn [length].
  replace (Z.to_nat (Z.min _ _)) with (length l1) by lia.
  rewrite take_app_length.
  replace (S (length l1)) with (length l1 + 1)%nat by lia.
  rewrite drop_app_add. reflexivity.
Qed.

End ArrayFacts.

(** ** Team and League: membership *)

Section Membership.

Implicit Types (ph : gmap loc Player.t) (th : gmap loc Team.t).
Implicit Types (tm : Team.t) (lg : League.t) (n : string) (ls : list loc).

Lemma no_player_named_Forall ph n ls :
  no_player_named ph n ls ->
  Forall (fun l => Team.named ph n l = false) ls.
Proof.
  intros H. apply Forall_forall. intros l Hl. unfold Team.named.
  destruct (ph !! l) as [p|] eqn:E; [|reflexivity].
  apply String.eqb_neq. eapply H; eassumption.
Qed.

Lemma no_team_named_Forall th n ls :
  no_team_named th n ls ->
  Forall (fun l => League.named th n l = false) ls.
Proof.
  intros H. apply Forall_forall. intros l Hl. unfold League.named.
  destruct (th !! l) as [tm|] eqn:E; [|reflexivity].
  apply String.eqb_neq. eapply H; eassumption.
Qed.

Lemma getTeam_None_no_team_named th lg n :
  League.getTeam th lg n = None <-> no_team_named th n (League.teams lg).
Proof.
  split.
  - intros H l tm Hl E Hn. apply Array_find_None in H.
    rewrite Forall_forall in H. specialize (H l Hl).
    unfold League.named in H. rewrite E in H.
    apply String.eqb_neq in H. contradiction.
  - intros H. apply Array_find_miss, no_team_named_Forall, H.
Qed.

Lemma removePlayer_miss ph tm n :
  no_player_named ph n (Team.players tm) ->
  Team.removePlayer ph tm n = (Error "Player not found", tm).
Proof.
  intros H. unfold Team.removePlayer.
  rewrite Array_findIndex_miss by (apply no_player_named_Forall, H).
  reflexivity.
Qed.

Lemma removeTeam_miss th lg n :
  no_team_named th n (League.teams lg) ->
  League.removeTeam th lg n = (Error "Team not found", lg).
Proof.
  intros H. unfold League.removeTeam.
  rewrite Array_findIndex_miss by (apply no_team_named_Forall, H).
  reflexivity.
Qed.

Lemma recordMatch_miss th lg home away hg ag now :
  League.getTeam th lg home = None \/ League.getTeam th lg away = None ->
  League.recordMatch th lg home away hg ag now
  = (Error "One or both teams not found", (th, lg)).
Proof.
  unfold League.recordMatch. intros [-> | ->]; [reflexivity|].
  destruct (League.getTeam th lg home); reflexivity.
Qed.

Lemma named_player ph (l : loc) (p : Player.t) :
  ph !! l = Some p -> Team.named ph (Player.name p) l = true.
Proof. intros H. unfold Team.named. rewrite H. apply String.eqb_refl. Qed.

Lemma removePlayer_last ph tm (l : loc) (p : Player.t) :
  ph !! l = Some p ->
  no_player_named ph (Player.name p) (Team.players tm) ->
  Team.removePlayer ph (Team.set_players (Team.players tm ++ [l]) tm)
    (Player.name p)
  = (Ok, tm).
Proof.
  intros Hl Hno. unfold Team.removePlayer, Array_findIndex.
  cbn [Team.players Team.set_players].
  rewrite findIndex_from_app_miss by (apply no_player_named_Forall, Hno).
  cbn [findIndex_from]. rewrite (named_player ph l p Hl), Z.add_0_l.
  destruct (Z.eqb_spec (Z.of_nat (length (Team.players tm))) (-1)); [lia|].
  rewrite Array_splice1_middle, app_nil_r.
  destruct tm; reflexivity.
Qed.

(** C7: on a roster with no player named as the new one, [addPlayer]
    followed by [removePlayer] of that name succeeds twice and gives back
    the Team as it was: the same players in the same order. *)
Theorem addPlayer_removePlayer_roundtrip ph tm (l : loc) (p : Player.t) :
  ph !! l = Some p ->
  no_player_named ph (Player.name p) (Team.players tm) ->
  let added := Team.addPlayer tm (VPlayer l) in
  let removed := Team.removePlayer ph (snd added) (Player.name p) in
  fst added = Ok /\
  Team.players (snd added) = Team.players tm ++ [l] /\
  fst removed = Ok /\
  Team.players (snd removed) = Team.players tm /\
  snd removed = tm.
Proof.
  intros Hl Hno added removed. subst added removed.
  cbn [Team.addPlayer Team.instanceof_Player fst snd].
  rewrite (removePlayer_last ph tm l p Hl Hno).
  repeat split.
Qed.

Lemma addPlayer_removePlayer_roundtrip_witness :
  let ph : gmap loc Player.t :=
    {[ 1%positive := Player.constructor "Ann" "Forward" 9 8 7 None None None;
       2%positive := Player.constructor "Bea" "Defender" 6 4 6 None None None ]} in
  let tm := Team.set_players [1%positive] (Team.constructor "A" None None) in
  Team.players
    (snd (Team.removePlayer ph (snd (Team.addPlayer tm (VPlayer 2%positive))) "Bea"))
  = [1%positive].
Proof.
  intros ph tm.
  refine (proj1 (proj2 (proj2 (proj2
    (addPlayer_removePlayer_roundtrip ph tm 2%positive
       (Player.constructor "Bea" "Defender" 6 4 6 None None None) _ _))))).
  - reflexivity.
  - intros l p Hl Hp. apply list_elem_of_singleton in Hl. subst l.
    vm_compute in Hp. injection Hp as <-. discriminate.
Defined.

End Membership.

(** ** League: recording a match *)

Section RecordMatch.

Implicit Types (th : gmap loc Team.t) (lg : League.t) (tm : Team.t).
Implicit Types (home away n : string) (hg ag now : Z) (h a l : loc).

Lemma getTeam_Some th lg n l :
  League.getTeam th lg n = Some l ->
  exists tm, th !! l = Some tm /\ Team.name tm = n /\ l ∈ League.teams lg.
Proof.
  intros H. apply Array_find_Some in H as (l1 & l2 & E & Hn & _).
  unfold League.named in Hn. destruct (th !! l) as [tm|]; [|discriminate].
  exists tm. repeat split.
  - apply String.eqb_eq, Hn.
  - rewrite E. apply elem_of_app. right. constructor.
Qed.

(** When both names resolve, the match is recorded: both Teams are
    updated through their references, home then away, and the record is
    appended. *)
Lemma recordMatch_resolved th lg home away hg ag now h a :
  League.getTeam th lg home = Some h ->
  League.getTeam th lg away = Some a ->
  League.recordMatch th lg home away hg ag now
  = (Ok,
     (League.call_updateStats
        (League.call_updateStats th h hg ag (home_award hg ag))
        a ag hg (away_award hg ag),
      League.set_matches
        (League.matches lg ++ [League.mk_match home away hg ag now]) lg)).
Proof.
  intros Hh Ha. unfold League.recordMatch, home_award, away_award.
  rewrite Hh, Ha.
  destruct (hg >? ag); [reflexivity|]. destruct (hg <? ag); reflexivity.
Qed.

Lemma awards_cases hg ag :
  (hg > ag -> home_award hg ag = 3 /\ away_award hg ag = 0) /\
  (hg < ag -> home_award hg ag = 0 /\ away_award hg ag = 3) /\
  (hg = ag -> home_award hg ag = 1 /\ away_award hg ag = 1).
Proof.
  unfold home_award, away_award. rewrite Z.gtb_ltb.
  destruct (Z.ltb_spec ag hg), (Z.ltb_spec hg ag); repeat split; lia.
Qed.

Lemma updateStats_fields tm gs gc pe :
  Team.points (Team.updateStats tm gs gc pe) = Team.points tm + pe /\
  Team.goalsFor (Team.updateStats tm gs gc pe) = Team.goalsFor tm + gs /\
  Team.goalsAgainst (Team.updateStats tm gs gc pe) = Team.goalsAgainst tm + gc /\
  Team.name (Team.updateStats tm gs gc pe) = Team.name tm /\
  Team.players (Team.updateStats tm gs gc pe) = Team.players tm.
Proof. repeat split. Qed.

(** The heap after a match between two different Teams. *)
Lemma call_updateStats_two th h a (H A : Team.t) gs gc pe gs' gc' pe' :
  th !! h = Some H -> th !! a = Some A -> h <> a ->
  League.call_updateStats (League.call_updateStats th h gs gc pe) a gs' gc' pe'
  = <[a := Team.updateStats A gs' gc' pe']>
      (<[h := Team.updateStats H gs gc pe]> th).
Proof.
  intros Hh Ha Hne. unfold League.call_updateStats.
  rewrite Hh, lookup_insert_ne, Ha by assumption. reflexivity.
Qed.

(** The heap after a match of a Team against itself. *)
Lemma call_updateStats_twice th h (H : Team.t) gs gc pe gs' gc' pe' :
  th !! h = Some H ->
  League.call_updateStats (League.call_updateStats th h gs gc pe) h gs' gc' pe'
  = <[h := Team.updateStats (Team.updateStats H gs gc pe) gs' gc' pe']> th.
Proof.
  intros Hh. unfold League.call_updateStats.
  rewrite Hh, lookup_insert_eq, insert_insert_eq. reflexivity.
Qed.

Lemma resolved_distinct th lg home away h a :
  League.getTeam th lg home = Some h ->
  League.getTeam th lg away = Some a ->
  home <> away -> h <> a.
Proof.
  intros Hh Ha Hne ->.
  apply getTeam_Some in Hh as (H & EH & NH & _).
  apply getTeam_Some in Ha as (A & EA & NA & _).
  congruence.
Qed.


(** In the arithmetic of [Z]: when the two names differ and both
    resolve, [recordMatch] has the specified effect. *)
Lemma recordMatch_effect_of_two_teams th lg home away hg ag now h a :
  League.getTeam th lg home = Some h ->
  League.getTeam th lg away = Some a ->
  home <> away ->
  recordMatch_effect th lg home away hg ag now h a.
Proof.
  intros Hh Ha Hne.
  pose proof (resolved_distinct th lg home away h a Hh Ha Hne) as Hd.
  pose proof (awards_cases hg ag) as (Hwin & Hloss & Hdraw).
  unfold recordMatch_effect.
  rewrite (recordMatch_resolved th lg home away hg ag now h a Hh Ha).
  apply getTeam_Some in Hh as (H & EH & _).
  apply getTeam_Some in Ha as (A & EA & _).
  rewrite (call_updateStats_two th h a H A _ _ _ _ _ _ EH EA Hd).
  cbn [fst snd League.matches League.set_matches]. unfold stat.
  rewrite lookup_insert_eq, (lookup_insert_ne _ a h) by congruence.
  rewrite lookup_insert_eq, EH, EA. cbn [from_option].
  split; [reflexivity|]. split; [eauto|]. split; [eauto|].
  split; [intros C; destruct (Hwin C) as [-> ->]; cbn; lia|].
  split; [intros C; destruct (Hloss C) as [-> ->]; cbn; lia|].
  split; [intros C; destruct (Hdraw C) as [-> ->]; cbn; lia|].
  repeat split.
Qed.

(** C1 as stated fails when both names are the same: the one Team gets
    both updates. *)
Lemma recordMatch_effect_fails_on_self_match :
  League.getTeam solo_teams solo_league "A" = Some 1%positive /\
  ~ recordMatch_effect solo_teams solo_league "A" "A" 1 0 1000
      1%positive 1%positive.
Proof.
  split; [reflexivity|].
  intros (_ & _ & _ & Hwin & _).
  destruct (Hwin ltac:(lia)) as [_ Haway].
  vm_compute in Haway. discriminate.
Qed.

(** The specification's example: A beats B 3-1, both new. *)
Example recordMatch_A_B_3_1 :
  let th : gmap loc Team.t :=
    {[ 1%positive := Team.constructor "A" None None;
       2%positive := Team.constructor "B" None None ]} in
  let lg := League.set_teams [1%positive; 2%positive]
              (League.constructor "L" None) in
  let out := League.recordMatch th lg "A" "B" 3 1 1000 in
  fst out = Ok /\
  stats_of (fst (snd out)) 1%positive = Some (3, 3, 1) /\
  stats_of (fst (snd out)) 2%positive = Some (0, 1, 3) /\
  League.matches (snd (snd out)) = [League.mk_match "A" "B" 3 1 1000].
Proof. vm_compute. repeat split. Qed.


Lemma world_eta (w : world) :
  mk_world (player_objs w) (team_objs w) (league w) = w.
Proof. destruct w; reflexivity. Qed.

(** C2: [recordMatch] with a name that no Team of the league has signals
    the failure and changes nothing in the model (Teams, rosters, Players
    and the match log are as before); [removeTeam] and [removePlayer] with
    a name that no member has signal the failure and leave the league,
    resp. the Team, exactly as it was. *)
Theorem not_found_changes_nothing :
  (forall (w : world) home away hg ag now,
     no_team_named (team_objs w) home (League.teams (league w)) \/
     no_team_named (team_objs w) away (League.teams (league w)) ->
     execute_recordMatch w home away hg ag now
     = (Error "One or both teams not found", w)) /\
  (forall th lg n,
     no_team_named th n (League.teams lg) ->
     League.removeTeam th lg n = (Error "Team not found", lg)) /\
  (forall (ph : gmap loc Player.t) tm n,
     no_player_named ph n (Team.players tm) ->
     Team.removePlayer ph tm n = (Error "Player not found", tm)).
Proof.
  split; [|split].
  - intros w home away hg ag now H. unfold execute_recordMatch.
    rewrite recordMatch_miss.
    + rewrite world_eta. reflexivity.
    + destruct H as [H|H]; [left|right];
        apply getTeam_None_no_team_named, H.
  - exact removeTeam_miss.
  - exact removePlayer_miss.
Qed.

Lemma not_found_changes_nothing_witness :
  execute_recordMatch solo_world "A" "Z" 1 0 1000
  = (Error "One or both teams not found", solo_world) /\
  League.removeTeam solo_teams solo_league "Z"
  = (Error "Team not found", solo_league) /\
  Team.removePlayer ∅ (Team.constructor "A" None None) "Ann"
  = (Error "Player not found", Team.constructor "A" None None).
Proof.
  destruct not_found_changes_nothing as (Hmatch & Hteam & Hplayer).
  assert (Hz : no_team_named solo_teams "Z" [1%positive]).
  { intros l tm Hl E. apply list_elem_of_singleton in Hl. subst l.
    vm_compute in E. injection E as <-. discriminate. }
  split; [|split].
  - apply Hmatch. right. exact Hz.
  - apply Hteam. exact Hz.
  - apply Hplayer. intros l p Hl. inversion Hl.
Defined.

End RecordMatch.

(** ** Team statistics change only through recordMatch *)

Section Frame.

Implicit Types (w : world) (o : operation) (th : gmap loc Team.t).
Implicit Types (tm : Team.t) (ls : list loc) (f : Team.t -> Z).

(** Two Teams with the same three statistics. *)
Local Abbreviation same_statistics tm tm' :=
  (Team.points tm' = Team.points tm /\
   Team.goalsFor tm' = Team.goalsFor tm /\
   Team.goalsAgainst tm' = Team.goalsAgainst tm).

Lemma addPlayer_statistics tm v :
  same_statistics tm (snd (Team.addPlayer tm v)).
Proof.
  unfold Team.addPlayer. destruct (Team.instanceof_Player v); repeat split.
Qed.

Lemma removePlayer_statistics ph tm n :
  same_statistics tm (snd (Team.removePlayer ph tm n)).
Proof.
  unfold Team.removePlayer. destruct (_ =? _); repeat split.
Qed.

Lemma on_team_lookup w l g :
  (forall tm, same_statistics tm (g tm)) ->
  forall l' tm, team_objs w !! l' = Some tm ->
  exists tm', team_objs (on_team w l g) !! l' = Some tm' /\
              same_statistics tm tm'.
Proof.
  intros Hg l' tm E. unfold on_team.
  destruct (team_objs w !! l) as [o|] eqn:El; cbn [team_objs].
  - destruct (decide (l = l')) as [->|Hne].
    + rewrite lookup_insert_eq. exists (g o).
      split; [reflexivity|]. replace tm with o by congruence. apply Hg.
    + rewrite lookup_insert_ne by assumption. exists tm. repeat split. exact E.
  - exists tm. repeat split. exact E.
Qed.

Lemma on_player_team_objs w l g : team_objs (on_player w l g) = team_objs w.
Proof. unfold on_player. destruct (player_objs w !! l); reflexivity. Qed.

Lemma fresh_team_unused th : th !! fresh (dom th) = None.
Proof. apply not_elem_of_dom, is_fresh. Qed.

(** Every Team that exists before an operation exists after it, with the
    same statistics. *)
Lemma execute_keeps_statistics w o l tm :
  team_objs w !! l = Some tm ->
  exists tm', team_objs (execute w o) !! l = Some tm' /\
              same_statistics tm tm'.
Proof.
  intros E.
  destruct o; cbn [execute team_objs];
    try (exists tm; repeat split; exact E).
  - rewrite on_player_team_objs. exists tm. repeat split. exact E.
  - exists tm. repeat split. rewrite lookup_insert_ne; [exact E|].
    intros Heq. rewrite <- Heq, fresh_team_unused in E. discriminate.
  - apply on_team_lookup; [|exact E]. intros; apply addPlayer_statistics.
  - apply on_team_lookup; [|exact E]. intros; apply removePlayer_statistics.
Qed.

(** The statistics read through a reference are the same before and after,
    also for a reference that held no Team before. *)
Lemma execute_stat w o f l :
  is_statistic f ->
  stat f (team_objs (execute w o)) l = stat f (team_objs w) l.
Proof.
  intros Hf. unfold stat.
  destruct (team_objs w !! l) as [tm|] eqn:E.
  - destruct (execute_keeps_statistics w o l tm E) as (tm' & -> & Hp & Hg & Ha).
    cbn. destruct Hf as [-> | [-> | ->]]; assumption.
  - destruct o; cbn [execute team_objs]; rewrite ?on_player_team_objs, ?E;
      try reflexivity.
    + destruct (decide (fresh (dom (team_objs w)) = l)) as [<-|Hne].
      * rewrite lookup_insert_eq. cbn.
        destruct Hf as [-> | [-> | ->]]; reflexivity.
      * rewrite lookup_insert_ne, E by assumption. reflexivity.
    + unfold on_team. destruct (team_objs w !! tm) eqn:Et; cbn [team_objs].
      * rewrite lookup_insert_ne, E by congruence. reflexivity.
      * rewrite E. reflexivity.
    + unfold on_team. destruct (team_objs w !! tm) eqn:Et; cbn [team_objs].
      * rewrite lookup_insert_ne, E by congruence. reflexivity.
      * rewrite E. reflexivity.
Qed.

Lemma total_app f th ls1 ls2 :
  total f th (ls1 ++ ls2) = total f th ls1 + total f th ls2.
Proof.
  induction ls1 as [|l ls1 IH]; [reflexivity|].
  change (total f th ((l :: ls1) ++ ls2))
    with (stat f th l + total f th (ls1 ++ ls2)).
  change (total f th (l :: ls1)) with (stat f th l + total f th ls1).
  lia.
Qed.

Lemma total_ext f th th' ls :
  (forall l, stat f th' l = stat f th l) -> total f th' ls = total f th ls.
Proof.
  intros H. induction ls as [|l ls IH]; [reflexivity|].
  change (total f th' (l :: ls)) with (stat f th' l + total f th' ls).
  change (total f th (l :: ls)) with (stat f th l + total f th ls).
  rewrite IH, H. reflexivity.
Qed.

Lemma findIndex_from_none {A} (g : A -> bool) (l : list A) i :
  0 <= i -> findIndex_from g l i = -1 -> Array_find g l = None.
Proof.
  revert i. induction l as [|x l IH]; intros i Hi; cbn; [reflexivity|].
  destruct (g x); [lia|]. apply IH. lia.
Qed.

(** The league's Teams after [removeTeam]: without the Team that
    [getTeam] finds, in the same order. *)
Lemma removeTeam_teams th (lg : League.t) n :
  match League.getTeam th lg n with
  | Some l =>
      exists ls1 ls2,
        League.teams lg = ls1 ++ l :: ls2 /\
        no_team_named th n ls1 /\
        League.removeTeam th lg n = (Ok, League.set_teams (ls1 ++ ls2) lg)
  | None => League.removeTeam th lg n = (Error "Team not found", lg)
  end.
Proof.
  unfold League.getTeam, League.removeTeam.
  destruct (Z.eqb_spec (Array_findIndex (League.named th n) (League.teams lg)) (-1))
    as [Hi|Hi].
  - rewrite (findIndex_from_none _ _ 0 ltac:(lia) Hi). reflexivity.
  - destruct (findIndex_from_hit _ _ 0 Hi ltac:(lia))
      as (ls1 & l & ls2 & E & Hl & Hmiss & Hidx).
    destruct (Array_findIndex_find _ _ Hi) as (ls1' & l' & ls2' & E' & Hfind & Hidx').
    assert (Hlen : length ls1 = length ls1').
    { unfold Array_findIndex in Hidx'. lia. }
    assert (ls1' = ls1 /\ l' :: ls2' = l :: ls2) as [-> [= -> ->]].
    { rewrite E in E'. apply app_inj_1 in E' as [-> ->]; [split; reflexivity|].
      exact Hlen. }
    rewrite Hfind. exists ls1, ls2. split; [exact E|]. split.
    + intros x tm Hx Ex Hn. rewrite Forall_forall in Hmiss.
      specialize (Hmiss x Hx). unfold League.named in Hmiss.
      rewrite Ex in Hmiss. apply String.eqb_neq in Hmiss. contradiction.
    + rewrite Hidx', E, Array_splice1_middle. reflexivity.
Qed.

Lemma league_total_execute w o f :
  is_statistic f ->
  league_total f (execute w o) = league_total f w + membership_delta f w o.
Proof.
  intros Hf. unfold league_total.
  rewrite (total_ext f (team_objs w) (team_objs (execute w o)))
    by (intros l; apply execute_stat, Hf).
  destruct o; cbn [execute league membership_delta];
    rewrite ?Z.add_0_r; try reflexivity.
  - unfold on_player. destruct (player_objs w !! p); reflexivity.
  - unfold on_team. destruct (team_objs w !! tm); reflexivity.
  - unfold on_team. destruct (team_objs w !! tm); reflexivity.
  - unfold League.addTeam.
    destruct (League.instanceof_Team team) as [l|]; cbn [snd League.teams League.set_teams].
    + rewrite total_app. cbn. lia.
    + lia.
  - pose proof (removeTeam_teams (team_objs w) (league w) teamName) as H.
    destruct (League.getTeam (team_objs w) (league w) teamName) as [l|].
    + destruct H as (ls1 & ls2 & E & _ & ->).
      cbn [snd League.teams League.set_teams].
      rewrite E, !total_app.
      change (total f (team_objs w) (l :: ls2))
        with (stat f (team_objs w) l + total f (team_objs w) ls2).
      lia.
    + rewrite H. cbn [snd]. lia.
Qed.

(** C8, amended: an operation other than [recordMatch] leaves the points,
    goals for and goals against of every Team as they are.  The totals
    over the Teams of the league change only with the membership:
    [addTeam] raises them by the statistics of the Team added, [removeTeam]
    lowers them by those of the Team removed, and every other operation
    leaves them unchanged. *)
Theorem statistics_change_only_through_recordMatch w o :
  (forall l tm,
     team_objs w !! l = Some tm ->
     exists tm',
       team_objs (execute w o) !! l = Some tm' /\
       Team.points tm' = Team.points tm /\
       Team.goalsFor tm' = Team.goalsFor tm /\
       Team.goalsAgainst tm' = Team.goalsAgainst tm) /\
  (forall f, is_statistic f ->
     league_total f (execute w o) = league_total f w + membership_delta f w o) /\
  (changes_membership o = false ->
   forall f, is_statistic f ->
     league_total f (execute w o) = league_total f w).
Proof.
  split; [|split].
  - intros l tm E. apply execute_keeps_statistics, E.
  - intros f Hf. apply league_total_execute, Hf.
  - intros Hm f Hf. rewrite league_total_execute by exact Hf.
    destruct o; cbn in Hm; try discriminate; cbn [membership_delta]; lia.
Qed.

Lemma statistics_change_only_through_recordMatch_witness :
  (exists tm',
     team_objs (execute played_world (LeagueRemoveTeam "A")) !! 2%positive
       = Some tm' /\
     Team.points tm' = 0 /\ Team.goalsFor tm' = 1 /\ Team.goalsAgainst tm' = 3) /\
  league_total Team.goalsFor
    (execute played_world (TeamAddPlayer 1%positive (VPlayer 1%positive)))
  = league_total Team.goalsFor played_world.
Proof.
  split.
  - destruct (statistics_change_only_through_recordMatch played_world
                (LeagueRemoveTeam "A")) as (Hkeep & _).
    apply (Hkeep 2%positive
             (Team.updateStats (Team.constructor "B" None None) 1 3 0)).
    reflexivity.
  - destruct (statistics_change_only_through_recordMatch played_world
                (TeamAddPlayer 1%positive (VPlayer 1%positive))) as (_ & _ & Hsame).
    apply Hsame; [reflexivity|]. right; left; reflexivity.
Defined.

(** C8 as stated fails for [removeTeam]: the total of the points in the
    league drops from 3 to 0 when the winner of the only match leaves. *)
Lemma removeTeam_changes_league_total :
  league_total Team.points played_world = 3 /\
  league_total Team.points (execute played_world (LeagueRemoveTeam "A")) = 0 /\
  league_total Team.points (execute played_world (LeagueRemoveTeam "A"))
  <> league_total Team.points played_world.
Proof. vm_compute. repeat split. discriminate. Qed.

(** Likewise for [addTeam] of a Team that is already a member. *)
Example addTeam_changes_league_total :
  league_total Team.points
    (execute played_world (LeagueAddTeam (VTeam 1%positive))) = 6.
Proof. vm_compute. reflexivity. Qed.

End Frame.

(** ** Sorting: the contract of a stable sort *)

Section StableSort.

Context {A K : Type} `{EqDecision K}.
Variables (cmp : A -> A -> Z) (R : A -> A -> Prop) (key : A -> K).

(** The comparator is consistent: it decides a total preorder whose
    equivalence classes are the keys. *)
Hypothesis cmp_R : forall a b, cmp a b <= 0 <-> R a b.
Hypothesis R_total : forall a b, R a b \/ R b a.
Hypothesis R_trans : forall a b c, R a b -> R b c -> R a c.
Hypothesis key_R : forall a b, key a = key b -> R a b.
Hypothesis R_key : forall a b, R a b -> R b a -> key a = key b.

Implicit Types (x y : A) (l : list A) (c : K).

Lemma sort_insert_perm x l : sort_insert cmp x l ≡ₚ x :: l.
Proof.
  induction l as [|y l IH]; cbn; [reflexivity|].
  destruct (0 <? cmp x y); [|reflexivity].
  rewrite IH. apply Permutation_swap.
Qed.

Lemma Array_sort_perm l : Array_sort cmp l ≡ₚ l.
Proof.
  induction l as [|x l IH]; cbn; [reflexivity|].
  fold (Array_sort cmp l). rewrite sort_insert_perm, IH. reflexivity.
Qed.

Lemma sort_insert_sorted x l :
  StronglySorted R l -> StronglySorted R (sort_insert cmp x l).
Proof.
  induction 1 as [|y l Hl IH Hy]; cbn.
  - repeat constructor.
  - destruct (Z.ltb_spec 0 (cmp x y)) as [Hgt|Hle].
    + assert (Ryx : R y x).
      { destruct (R_total y x) as [|Rxy]; [assumption|].
        apply cmp_R in Rxy. lia. }
      constructor; [exact IH|].
      apply Forall_forall. intros z Hz.
      rewrite sort_insert_perm in Hz. apply elem_of_cons in Hz as [->|Hz].
      * exact Ryx.
      * rewrite Forall_forall in Hy. apply Hy, Hz.
    + apply cmp_R in Hle.
      constructor; [constructor; assumption|].
      constructor; [exact Hle|].
      eapply Forall_impl; [exact Hy|]. intros z Hz. eapply R_trans; eassumption.
Qed.

Lemma Array_sort_sorted l : StronglySorted R (Array_sort cmp l).
Proof.
  induction l as [|x l IH]; cbn; [constructor|].
  apply sort_insert_sorted, IH.
Qed.

(** Inserting an element moves it only past elements of other keys. *)
Lemma sort_insert_filter x l c :
  filter (fun y => key y = c) (sort_insert cmp x l)
  = filter (fun y => key y = c) (x :: l).
Proof.
  induction l as [|y l IH]; cbn [sort_insert]; [reflexivity|].
  destruct (Z.ltb_spec 0 (cmp x y)) as [Hgt|Hle]; [|reflexivity].
  assert (Hk : key x <> key y).
  { intros Hk. apply key_R, cmp_R in Hk. lia. }
  rewrite (filter_cons _ y), IH, !(filter_cons _ x), (filter_cons _ y).
  destruct (decide (key x = c)) as [Hx|Hx]; [|reflexivity].
  destruct (decide (key y = c)) as [Hy|Hy]; [congruence | reflexivity].
Qed.

Lemma Array_sort_stable l c :
  filter (fun y => key y = c) (Array_sort cmp l) = filter (fun y => key y = c) l.
Proof.
  induction l as [|x l IH]; [reflexivity|].
  change (Array_sort cmp (x :: l)) with (sort_insert cmp x (Array_sort cmp l)).
  rewrite sort_insert_filter, !(filter_cons _ x), IH. reflexivity.
Qed.

(** Two sorted arrangements of the same elements that keep the elements
    of every key in the same order are the same list. *)
Lemma stable_sorted_unique l1 l2 :
  StronglySorted R l1 -> StronglySorted R l2 -> l1 ≡ₚ l2 ->
  (forall c, filter (fun y => key y = c) l1 = filter (fun y => key y = c) l2) ->
  l1 = l2.
Proof.
  intros S1. revert l2. induction S1 as [|x l1 S1 IH Hx]; intros l2 S2 Hp Hf.
  - symmetry. apply Permutation.Permutation_nil, Hp.
  - destruct S2 as [|y l2 S2 Hy].
    + symmetry in Hp. apply Permutation.Permutation_nil in Hp. discriminate.
    + assert (Exy : x = y).
      { assert (Hk : key x = key y).
        { assert (Hyin : y ∈ x :: l1) by (rewrite Hp; left).
          assert (Hxin : x ∈ y :: l2) by (rewrite <- Hp; left).
          apply elem_of_cons in Hyin as [->|Hyin]; [reflexivity|].
          apply elem_of_cons in Hxin as [->|Hxin]; [reflexivity|].
          rewrite Forall_forall in Hx, Hy. apply R_key; auto. }
        specialize (Hf (key x)).
        rewrite (filter_cons_True _ x), (filter_cons_True _ y) in Hf
          by congruence.
        congruence. }
      subst y. f_equal. apply IH.
      * exact S2.
      * eapply Permutation_cons_inv. exact Hp.
      * intros c. specialize (Hf c). rewrite !(filter_cons _ x) in Hf.
        destruct (decide (key x = c)); congruence.
Qed.

(** [Array_sort] is the one list that meets the contract. *)
Lemma stable_sort_unique l l' :
  l' ≡ₚ l -> StronglySorted R l' ->
  (forall c, filter (fun y => key y = c) l' = filter (fun y => key y = c) l) ->
  l' = Array_sort cmp l.
Proof.
  intros Hp Hs Hf. apply stable_sorted_unique.
  - exact Hs.
  - apply Array_sort_sorted.
  - rewrite Hp, Array_sort_perm. reflexivity.
  - intros c. rewrite Hf, Array_sort_stable. reflexivity.
Qed.

End StableSort.

(** ** League: the standings *)

Section Standings.

Implicit Types (a b c : Team.info) (ph : gmap loc Player.t).
Implicit Types (th : gmap loc Team.t) (lg : League.t).

Lemma compare_standing_ranks a b :
  League.compare_standing a b <= 0 <-> ranks_before a b.
Proof.
  unfold League.compare_standing, ranks_before.
  destruct (Z.eqb_spec (Team.i_points (Team.i_stats b))
              (Team.i_points (Team.i_stats a))); cbn [negb]; lia.
Qed.

Lemma ranks_before_total a b : ranks_before a b \/ ranks_before b a.
Proof. unfold ranks_before. lia. Qed.

Lemma ranks_before_trans a b c :
  ranks_before a b -> ranks_before b c -> ranks_before a c.
Proof. unfold ranks_before. lia. Qed.

Lemma standing_key_ranks a b : standing_key a = standing_key b -> ranks_before a b.
Proof. unfold standing_key, ranks_before. intros [= -> ->]. lia. Qed.

Lemma ranks_standing_key a b :
  ranks_before a b -> ranks_before b a -> standing_key a = standing_key b.
Proof. unfold standing_key, ranks_before. intros H1 H2. f_equal; lia. Qed.



(** The specification's example, and the insertion order deciding between
    T2 and T4. *)
Example getStandings_three_teams :
  map Team.i_name
    (League.getStandings ∅ table_teams
       (table_league [2%positive; 1%positive; 3%positive]))
  = ["T3"; "T2"; "T1"]%string.
Proof. vm_compute. reflexivity. Qed.

Example getStandings_tie_T2_first :
  map Team.i_name
    (League.getStandings ∅ table_teams
       (table_league [1%positive; 2%positive; 4%positive; 3%positive]))
  = ["T3"; "T2"; "T4"; "T1"]%string.
Proof. vm_compute. reflexivity. Qed.

Example getStandings_tie_T4_first :
  map Team.i_name
    (League.getStandings ∅ table_teams
       (table_league [4%positive; 1%positive; 2%positive; 3%positive]))
  = ["T3"; "T4"; "T2"; "T1"]%string.
Proof. vm_compute. reflexivity. Qed.

End Standings.

(** * Further properties of the model *)

(** ** Player *)

Section PlayerMore.

Implicit Types (p : Player.t) (cs : list Player.call).

Lemma well_formed_constructor n pos a b c ag nat j :
  well_formed (Player.constructor n pos a b c ag nat j).
Proof.
  repeat split; try apply validateAttribute_range.
Qed.

Lemma well_formed_perform p (c : Player.call) :
  well_formed p -> well_formed (Player.perform p c).
Proof.
  intros (Hp & Hs & Ha & Hr).
  destruct c as [a b c | b | k]; cbn [Player.perform].
  - repeat split; try apply validateAttribute_range.
  - repeat split; cbn; try lia. exact Hr.
  - pose proof (addCard_skills p k) as E. unfold skills in E.
    injection E as E1 E2 E3 E4.
    unfold well_formed, Player.calculateOverallRating.
    rewrite E1, E2, E3, E4. repeat split; try lia. exact Hr.
Qed.

Lemma well_formed_perform_all cs p :
  well_formed p -> well_formed (Player.perform_all p cs).
Proof.
  revert p. induction cs as [|c cs IH]; intros p Hp; [exact Hp|].
  apply IH, well_formed_perform, Hp.
Qed.

Lemma well_formed_rating p :
  well_formed p ->
  Z.min (Player.pace p) (Z.min (Player.shooting p) (Player.passing p))
  <= Player.overallRating p
  <= Z.max (Player.pace p) (Z.max (Player.shooting p) (Player.passing p)).
Proof.
  intros (Hp & Hs & Ha & Hr).
  rewrite Hr, calculateOverallRating_closed_form.
  split.
  - apply Z.div_le_lower_bound; lia.
  - apply Z.lt_succ_r. apply Z.div_lt_upper_bound; lia.
Qed.

(** X1: the rating of a Player lies between the least and the greatest of
    the three skills, hence in [1,10], after construction and any
    sequence of calls. *)
Theorem overallRating_between_skills n pos a b c ag nat j cs :
  let p := Player.perform_all (Player.constructor n pos a b c ag nat j) cs in
  Z.min (Player.pace p) (Z.min (Player.shooting p) (Player.passing p))
  <= Player.overallRating p
  <= Z.max (Player.pace p) (Z.max (Player.shooting p) (Player.passing p)) /\
  1 <= Player.overallRating p <= 10.
Proof.
  intros p.
  assert (Hwf : well_formed p)
    by apply well_formed_perform_all, well_formed_constructor.
  pose proof (well_formed_rating p Hwf) as Hr.
  destruct Hwf as (Hp & Hs & Ha & _). split; [exact Hr | lia].
Qed.

(** X2: [updateStats] keeps no history: a second call overwrites the
    first entirely, and a call changes nothing but the three skills and
    the rating. *)
Theorem updateStats_overwrites p a b c a' b' c' :
  Player.updateStats (Player.updateStats p a b c) a' b' c'
  = Player.updateStats p a' b' c' /\
  identity_of (Player.updateStats p a b c) = identity_of p /\
  Player.isInjured (Player.updateStats p a b c) = Player.isInjured p /\
  Player.yellowCards (Player.updateStats p a b c) = Player.yellowCards p /\
  Player.redCards (Player.updateStats p a b c) = Player.redCards p.
Proof. repeat split. Qed.

(** X3: writing a Player's own skills back through [updateStats] changes
    nothing, for a Player made by the constructor and any calls: the
    stored skills are already clamped and the rating already current. *)
Theorem updateStats_own_skills n pos a b c ag nat j cs :
  let p := Player.perform_all (Player.constructor n pos a b c ag nat j) cs in
  Player.updateStats p (Player.pace p) (Player.shooting p) (Player.passing p)
  = p.
Proof.
  intros p.
  assert (Hwf : well_formed p)
    by apply well_formed_perform_all, well_formed_constructor.
  destruct Hwf as (Hp & Hs & Ha & Hr).
  unfold Player.updateStats.
  rewrite !validateAttribute_fixed by assumption.
  destruct p as [n0 pos0 ag0 nat0 j0 pa sh ps r inj y rd].
  cbn in *. rewrite Hr. reflexivity.
Qed.

(** X4: skills given inside [1,10] are stored as given, smaller ones as 1
    and greater ones as 10; the clamp is monotone. *)
Theorem validateAttribute_saturates :
  (forall v, 1 <= v <= 10 -> Player.validateAttribute v = v) /\
  (forall v, v <= 1 -> Player.validateAttribute v = 1) /\
  (forall v, 10 <= v -> Player.validateAttribute v = 10) /\
  (forall v w, v <= w -> Player.validateAttribute v <= Player.validateAttribute w).
Proof. unfold Player.validateAttribute. repeat split; intros; lia. Qed.

Lemma validateAttribute_saturates_witness :
  Player.validateAttribute 7 = 7 /\ Player.validateAttribute (-3) = 1 /\
  Player.validateAttribute 42 = 10 /\
  Player.validateAttribute 0 <= Player.validateAttribute 11.
Proof.
  destruct validateAttribute_saturates as (Hin & Hlo & Hhi & Hmono).
  split; [apply Hin; lia|]. split; [apply Hlo; lia|].
  split; [apply Hhi; lia|]. apply Hmono; lia.
Defined.

(** X5: a card kind other than "yellow" and "red" (the comparison is
    exact, so also "Yellow") is ignored: the Player is unchanged. *)
Theorem addCard_unknown_kind p (k : string) :
  k <> "yellow"%string -> k <> "red"%string -> Player.addCard p k = p.
Proof.
  intros Hy Hr. unfold Player.addCard.
  apply String.eqb_neq in Hy, Hr. rewrite Hy, Hr. reflexivity.
Qed.

Lemma addCard_unknown_kind_witness :
  let p := Player.constructor "Ann" "Forward" 9 8 7 None None None in
  Player.addCard p "Yellow" = p.
Proof. intros p. apply addCard_unknown_kind; discriminate. Defined.

Lemma count_cons (kind : string) (c : Player.call) cs :
  Z.of_nat (length (List.filter (shows_card kind) (c :: cs)))
  = (if shows_card kind c then 1 else 0)
    + Z.of_nat (length (List.filter (shows_card kind) cs)).
Proof. cbn [List.filter]. destruct (shows_card kind c); cbn [length]; lia. Qed.

Lemma cards_step p (c : Player.call) :
  cards_ok p ->
  Player.yellowCards (Player.perform p c)
  + 2 * Player.redCards (Player.perform p c)
  = Player.yellowCards p + 2 * Player.redCards p
    + (if shows_card "yellow" c then 1 else 0)
    + 2 * (if shows_card "red" c then 1 else 0).
Proof.
  intros [Hy Hr]. destruct c as [a b c | b | k]; cbn [Player.perform shows_card];
    [cbn; lia.. |].
  unfold Player.addCard.
  destruct (String.eqb_spec k "yellow") as [->|Hk].
  - cbn. destruct (Z.leb_spec 2 (Player.yellowCards p + 1)); cbn; lia.
  - destruct (String.eqb k "red"); cbn; lia.
Qed.

Lemma cards_account_from cs p :
  cards_ok p ->
  let q := Player.perform_all p cs in
  Player.yellowCards q + 2 * Player.redCards q
  = Player.yellowCards p + 2 * Player.redCards p
    + yellow_count cs + 2 * red_count cs.
Proof.
  revert p. induction cs as [|c cs IH]; intros p Hp.
  - cbn. unfold yellow_count, red_count. cbn. lia.
  - cbn zeta. change (Player.perform_all p (c :: cs))
      with (Player.perform_all (Player.perform p c) cs).
    pose proof (IH _ (cards_ok_perform p c Hp)) as E. cbn zeta in E.
    rewrite E, (cards_step p c Hp).
    unfold yellow_count, red_count. rewrite !count_cons. lia.
Qed.

(** X6: no card is lost.  After construction and any sequence of calls,
    the yellow tally is the number of yellow cards shown modulo 2, and the
    red tally is the number of red cards shown plus one for every pair of
    yellow cards. *)
Theorem cards_account n pos a b c ag nat j cs :
  let p := Player.perform_all (Player.constructor n pos a b c ag nat j) cs in
  Player.yellowCards p = yellow_count cs mod 2 /\
  Player.redCards p = red_count cs + yellow_count cs / 2.
Proof.
  intros p.
  assert (H0 : cards_ok (Player.constructor n pos a b c ag nat j))
    by (split; [left; reflexivity | reflexivity]).
  pose proof (cards_account_from cs _ H0) as E. cbn zeta in E. fold p in E.
  pose proof (cards_ok_perform_all cs _ H0) as [Hy _]. fold p in Hy.
  change (Player.yellowCards (Player.constructor n pos a b c ag nat j))
    with 0 in E.
  change (Player.redCards (Player.constructor n pos a b c ag nat j))
    with 0 in E.
  Z.div_mod_to_equations. lia.
Qed.

Lemma identity_of_perform p (c : Player.call) :
  identity_of (Player.perform p c) = identity_of p.
Proof.
  destruct c as [a b c | b | k]; cbn [Player.perform]; try reflexivity.
  unfold Player.addCard.
  destruct (String.eqb k "yellow"); [|destruct (String.eqb k "red")];
    try reflexivity.
  cbn. destruct (2 <=? _); reflexivity.
Qed.

(** X7: nothing a Player can be asked to do changes who they are: name,
    position, age, nationality and jersey number are as constructed after
    any sequence of calls; and only [setInjuryStatus] changes the injury
    flag. *)
Theorem identity_is_kept p cs :
  identity_of (Player.perform_all p cs) = identity_of p /\
  (forall c : Player.call,
     Player.isInjured (Player.perform p c)
     = match c with
       | Player.SetInjuryStatus b => b
       | _ => Player.isInjured p
       end).
Proof.
  split.
  - revert p. induction cs as [|c cs IH]; intros p; [reflexivity|].
    change (Player.perform_all p (c :: cs))
      with (Player.perform_all (Player.perform p c) cs).
    rewrite IH. apply identity_of_perform.
  - intros [a b c | b | k]; cbn [Player.perform]; try reflexivity.
    unfold Player.addCard.
    destruct (String.eqb k "yellow"); [|destruct (String.eqb k "red")];
      try reflexivity.
    cbn. destruct (2 <=? _); reflexivity.
Qed.

(** X8: the snapshot [getPlayerInfo] leaves nothing out: two Players with
    the same snapshot are the same in every field. *)
Theorem getPlayerInfo_injective p q :
  Player.getPlayerInfo p = Player.getPlayerInfo q -> p = q.
Proof.
  destruct p, q. unfold Player.getPlayerInfo. cbn. intros H.
  injection H as -> -> -> -> -> -> -> -> -> -> -> ->. reflexivity.
Qed.

Lemma getPlayerInfo_injective_witness :
  Player.updateStats
    (Player.constructor "Ann" "Forward" 1 1 1 None None None) 9 8 7
  = Player.constructor "Ann" "Forward" 9 8 7 (Some 25) (Some "Unknown"%string)
      (Some 0).
Proof. apply getPlayerInfo_injective. reflexivity. Defined.

End PlayerMore.

(** ** Arrays: removing what find finds *)

Section ArrayMore.

Context {A : Type}.
Implicit Types (f : A -> bool) (l : list A) (x : A).

(** [findIndex] followed by [splice] removes the element that [find]
    returns, and nothing when [find] returns none. *)
Lemma find_findIndex_splice f l :
  match Array_find f l with
  | Some x =>
      exists l1 l2,
        l = l1 ++ x :: l2 /\ f x = true /\
        Forall (fun y => f y = false) l1 /\
        Array_findIndex f l <> -1 /\
        Array_splice1 l (Array_findIndex f l) = l1 ++ l2
  | None => Array_findIndex f l = -1
  end.
Proof.
  destruct (Array_find f l) as [x|] eqn:E.
  - apply Array_find_Some in E as (l1 & l2 & -> & Hx & Hl1).
    exists l1, l2. split; [reflexivity|]. split; [exact Hx|].
    split; [exact Hl1|].
    assert (Hi : Array_findIndex f (l1 ++ x :: l2) = Z.of_nat (length l1)).
    { unfold Array_findIndex. rewrite findIndex_from_app_miss by exact Hl1.
      cbn. rewrite Hx. lia. }
    rewrite Hi. split; [lia|]. apply Array_splice1_middle.
  - apply Array_findIndex_miss, Array_find_None, E.
Qed.

Lemma Array_find_app f l1 l2 :
  Array_find f (l1 ++ l2)
  = match Array_find f l1 with
    | Some x => Some x
    | None => Array_find f l2
    end.
Proof.
  induction l1 as [|y l1 IH]; cbn; [reflexivity|].
  destruct (f y); [reflexivity | exact IH].
Qed.

End ArrayMore.

(** ** Team *)

Section TeamMore.

Implicit Types (ph : gmap loc Player.t) (tm : Team.t) (n m : string).
Implicit Types (l : loc) (ls : list loc).

Lemma named_false_no_player ph n ls :
  Forall (fun l => Team.named ph n l = false) ls -> no_player_named ph n ls.
Proof.
  intros H l p Hl E Hn. rewrite Forall_forall in H. specialize (H l Hl).
  unfold Team.named in H. rewrite E in H.
  apply String.eqb_neq in H. contradiction.
Qed.

Lemma named_true ph n l :
  Team.named ph n l = true ->
  exists p, ph !! l = Some p /\ Player.name p = n.
Proof.
  unfold Team.named. destruct (ph !! l) as [p|]; [|discriminate].
  intros H. exists p. split; [reflexivity|]. apply String.eqb_eq, H.
Qed.

Lemma named_other ph n m l :
  Team.named ph n l = true -> m <> n -> Team.named ph m l = false.
Proof.
  intros H Hne. apply named_true in H as (p & E & <-).
  unfold Team.named. rewrite E. apply String.eqb_neq. congruence.
Qed.

(** X9: [getPlayer] returns the first Player of the roster with the name
    asked for, and none exactly when no Player of the roster has it. *)
Theorem getPlayer_first_match ph tm n :
  match Team.getPlayer ph tm n with
  | Some l =>
      exists ls1 ls2 p,
        Team.players tm = ls1 ++ l :: ls2 /\
        ph !! l = Some p /\ Player.name p = n /\
        no_player_named ph n ls1
  | None => no_player_named ph n (Team.players tm)
  end /\
  (no_player_named ph n (Team.players tm) -> Team.getPlayer ph tm n = None).
Proof.
  split.
  - unfold Team.getPlayer.
    destruct (Array_find _ _) as [l|] eqn:E.
    + apply Array_find_Some in E as (ls1 & ls2 & E & Hn & Hmiss).
      apply named_true in Hn as (p & Ep & Hp).
      exists ls1, ls2, p. repeat split; try assumption.
      apply named_false_no_player, Hmiss.
    + apply named_false_no_player, Array_find_None, E.
  - intros H. apply Array_find_miss, no_player_named_Forall, H.
Qed.

Lemma removePlayer_cases ph tm n :
  match Team.getPlayer ph tm n with
  | Some l =>
      exists ls1 ls2,
        Team.players tm = ls1 ++ l :: ls2 /\
        Team.named ph n l = true /\
        no_player_named ph n ls1 /\
        Team.removePlayer ph tm n = (Ok, Team.set_players (ls1 ++ ls2) tm)
  | None => Team.removePlayer ph tm n = (Error "Player not found", tm)
  end.
Proof.
  unfold Team.getPlayer, Team.removePlayer.
  pose proof (find_findIndex_splice (Team.named ph n) (Team.players tm)) as H.
  destruct (Array_find _ _) as [l|].
  - destruct H as (ls1 & ls2 & E & Hl & Hmiss & Hi & Hs).
    exists ls1, ls2. split; [exact E|]. split; [exact Hl|].
    split; [apply named_false_no_player, Hmiss|].
    destruct (Z.eqb_spec (Array_findIndex (Team.named ph n) (Team.players tm)) (-1));
      [contradiction|].
    rewrite Hs. reflexivity.
  - rewrite H. reflexivity.
Qed.

(** X10: [removePlayer] succeeds exactly when [getPlayer] finds a Player,
    and then removes that one reference: the Players before and after it
    stay, in order, and nothing else of the Team changes. *)
Theorem removePlayer_removes_found ph tm n :
  match Team.getPlayer ph tm n with
  | Some l =>
      exists ls1 ls2,
        Team.players tm = ls1 ++ l :: ls2 /\
        no_player_named ph n ls1 /\
        Team.removePlayer ph tm n = (Ok, Team.set_players (ls1 ++ ls2) tm)
  | None => Team.removePlayer ph tm n = (Error "Player not found", tm)
  end.
Proof.
  pose proof (removePlayer_cases ph tm n) as H.
  destruct (Team.getPlayer ph tm n) as [l|]; [|exact H].
  destruct H as (ls1 & ls2 & E & _ & Hno & Hr).
  exists ls1, ls2. repeat split; assumption.
Qed.

(** X11: removing the Player named [n] does not disturb the lookup of any
    other name. *)
Theorem removePlayer_other_names ph tm n m :
  m <> n ->
  Team.getPlayer ph (snd (Team.removePlayer ph tm n)) m = Team.getPlayer ph tm m.
Proof.
  intros Hne.
  pose proof (removePlayer_cases ph tm n) as H.
  unfold Team.getPlayer in *.
  destruct (Array_find (Team.named ph n) (Team.players tm)) as [l|].
  - destruct H as (ls1 & ls2 & E & Hl & _ & ->).
    cbn [snd Team.players Team.set_players]. rewrite E, !Array_find_app.
    cbn [Array_find]. rewrite (named_other ph n m l Hl Hne). reflexivity.
  - rewrite H. reflexivity.
Qed.

Lemma removePlayer_other_names_witness :
  let ph : gmap loc Player.t :=
    {[ 1%positive := Player.constructor "Ann" "Forward" 9 8 7 None None None;
       2%positive := Player.constructor "Bea" "Defender" 6 4 6 None None None ]} in
  let tm := Team.set_players [1%positive; 2%positive]
              (Team.constructor "A" None None) in
  Team.getPlayer ph (snd (Team.removePlayer ph tm "Ann")) "Bea"
  = Some 2%positive.
Proof.
  intros ph tm.
  rewrite (removePlayer_other_names ph tm "Ann" "Bea"); [reflexivity|].
  discriminate.
Defined.

(** X12: [addPlayer] refuses what is not a Player and leaves the Team as
    it is; it accepts every Player, also one already on the roster, at the
    end of the roster.  A lookup afterwards finds what it found before,
    and finds the new Player only under a name nobody on the roster had. *)
Theorem addPlayer_then_getPlayer ph tm (v : value) m :
  match v with
  | VPlayer l =>
      Team.addPlayer tm v
        = (Ok, Team.set_players (Team.players tm ++ [l]) tm) /\
      Team.getPlayer ph (snd (Team.addPlayer tm v)) m
        = match Team.getPlayer ph tm m with
          | Some l' => Some l'
          | None => if Team.named ph m l then Some l else None
          end
  | _ => Team.addPlayer tm v = (Error "Invalid player object", tm)
  end.
Proof.
  destruct v as [l | l |]; try reflexivity.
  split; [reflexivity|].
  unfold Team.getPlayer. cbn [Team.addPlayer Team.instanceof_Player snd].
  cbn [Team.players Team.set_players]. rewrite Array_find_app. reflexivity.
Qed.

(** In the arithmetic of [Z], updates accumulate. *)
Lemma updateStats_sums ph tm gs gc pe gs' gc' pe' :
  Team.updateStats (Team.updateStats tm gs gc pe) gs' gc' pe'
  = Team.updateStats tm (gs + gs') (gc + gc') (pe + pe') /\
  Team.updateStats (Team.updateStats tm gs gc pe) gs' gc' pe'
  = Team.updateStats (Team.updateStats tm gs' gc' pe') gs gc pe /\
  Team.i_goalDifference (Team.i_stats (Team.getTeamInfo ph (Team.updateStats tm gs gc pe)))
  = Team.i_goalDifference (Team.i_stats (Team.getTeamInfo ph tm)) + (gs - gc) /\
  Team.name (Team.updateStats tm gs gc pe) = Team.name tm /\
  Team.players (Team.updateStats tm gs gc pe) = Team.players tm.
Proof.
  destruct tm as [nm ci st ps pt gf ga].
  unfold Team.updateStats, Team.set_points, Team.set_goalsAgainst,
    Team.set_goalsFor. cbn.
  repeat split; try (f_equal; lia).
Qed.

Lemma players_info_insert ph l (q : Player.t) ls :
  l ∉ ls -> Team.players_info (<[l := q]> ph) ls = Team.players_info ph ls.
Proof.
  unfold Team.players_info. induction ls as [|x ls IH]; intros Hl; [reflexivity|].
  apply not_elem_of_cons in Hl as [Hx Hl]. cbn.
  rewrite lookup_insert_ne by congruence. rewrite (IH Hl). reflexivity.
Qed.

Lemma players_info_all ph ls (ps : list Player.t) :
  Forall2 (fun l p => ph !! l = Some p) ls ps ->
  Team.players_info ph ls = map Player.getPlayerInfo ps.
Proof.
  unfold Team.players_info.
  induction 1 as [|l p ls ps E _ IH]; [reflexivity|].
  cbn. rewrite E. cbn. rewrite IH. reflexivity.
Qed.

(** The snapshot of a Team, with the goal difference in the arithmetic of
    [Z]. *)
Lemma getTeamInfo_roster ph tm :
  (forall ps : list Player.t,
     Forall2 (fun l p => ph !! l = Some p) (Team.players tm) ps ->
     Team.i_players (Team.getTeamInfo ph tm) = map Player.getPlayerInfo ps) /\
  Team.i_goalDifference (Team.i_stats (Team.getTeamInfo ph tm))
  = Team.goalsFor tm - Team.goalsAgainst tm /\
  (forall l (q : Player.t),
     l ∉ Team.players tm ->
     Team.getTeamInfo (<[l := q]> ph) tm = Team.getTeamInfo ph tm).
Proof.
  split; [|split].
  - intros ps H. apply players_info_all, H.
  - reflexivity.
  - intros l q Hl. unfold Team.getTeamInfo.
    rewrite players_info_insert by exact Hl. reflexivity.
Qed.

End TeamMore.

(** ** League: membership *)

Section LeagueMore.

Implicit Types (th : gmap loc Team.t) (lg : League.t) (tm : Team.t).
Implicit Types (n m home away : string) (l h a : loc) (ls : list loc).

Lemma team_named_false th n ls :
  Forall (fun l => League.named th n l = false) ls -> no_team_named th n ls.
Proof.
  intros H l tm Hl E Hn. rewrite Forall_forall in H. specialize (H l Hl).
  unfold League.named in H. rewrite E in H.
  apply String.eqb_neq in H. contradiction.
Qed.

Lemma team_named_true th n l :
  League.named th n l = true ->
  exists tm, th !! l = Some tm /\ Team.name tm = n.
Proof.
  unfold League.named. destruct (th !! l) as [tm|]; [|discriminate].
  intros H. exists tm. split; [reflexivity|]. apply String.eqb_eq, H.
Qed.

(** X14: [addTeam] refuses what is not a Team and leaves the league as it
    is; it accepts every Team, also one that is already a member, at the
    end of the list.  [getTeam] afterwards finds what it found before, and
    the new Team only under a name no member had. *)
Theorem addTeam_then_getTeam th lg (v : value) m :
  match v with
  | VTeam l =>
      League.addTeam lg v
        = (Ok, League.set_teams (League.teams lg ++ [l]) lg) /\
      League.getTeam th (snd (League.addTeam lg v)) m
        = match League.getTeam th lg m with
          | Some l' => Some l'
          | None => if League.named th m l then Some l else None
          end
  | _ => League.addTeam lg v = (Error "Invalid team object", lg)
  end.
Proof.
  destruct v as [l | l |]; try reflexivity.
  split; [reflexivity|].
  unfold League.getTeam. cbn [League.addTeam League.instanceof_Team snd].
  cbn [League.teams League.set_teams]. rewrite Array_find_app. reflexivity.
Qed.

(** X15: [removeTeam] succeeds exactly when [getTeam] finds a Team, and
    then takes that one reference, the first of that name, out of the
    list; the other Teams keep their order, and the match log still holds
    every match, also those of the Team removed. *)
Theorem removeTeam_removes_found th lg n :
  match League.getTeam th lg n with
  | Some l =>
      exists ls1 ls2 tm,
        League.teams lg = ls1 ++ l :: ls2 /\
        th !! l = Some tm /\ Team.name tm = n /\
        no_team_named th n ls1 /\
        League.removeTeam th lg n = (Ok, League.set_teams (ls1 ++ ls2) lg)
  | None =>
      no_team_named th n (League.teams lg) /\
      League.removeTeam th lg n = (Error "Team not found", lg)
  end /\
  League.matches (snd (League.removeTeam th lg n)) = League.matches lg.
Proof.
  split.
  - unfold League.getTeam, League.removeTeam.
    pose proof (find_findIndex_splice (League.named th n) (League.teams lg)) as H.
    destruct (Array_find _ _) as [l|] eqn:E.
    + destruct H as (ls1 & ls2 & El & Hl & Hmiss & Hi & Hs).
      apply team_named_true in Hl as (tm & Etm & Hn).
      exists ls1, ls2, tm. repeat split; try assumption.
      * apply team_named_false, Hmiss.
      * destruct (Z.eqb_spec (Array_findIndex (League.named th n) (League.teams lg)) (-1));
          [contradiction|].
        rewrite Hs. reflexivity.
    + split; [apply team_named_false, Array_find_None, E|].
      rewrite H. reflexivity.
  - unfold League.removeTeam. destruct (_ =? _); reflexivity.
Qed.

(** X16: a Team added under a name no member has is the one [removeTeam]
    of that name removes: the league is back to what it was. *)
Theorem addTeam_removeTeam_roundtrip th lg l tm :
  th !! l = Some tm ->
  no_team_named th (Team.name tm) (League.teams lg) ->
  League.removeTeam th (snd (League.addTeam lg (VTeam l))) (Team.name tm)
  = (Ok, lg).
Proof.
  intros E Hno. cbn [League.addTeam League.instanceof_Team snd].
  unfold League.removeTeam, Array_findIndex.
  cbn [League.teams League.set_teams].
  rewrite findIndex_from_app_miss by (apply no_team_named_Forall, Hno).
  assert (Hl : League.named th (Team.name tm) l = true).
  { unfold League.named. rewrite E. apply String.eqb_refl. }
  cbn [findIndex_from]. rewrite Hl, Z.add_0_l.
  destruct (Z.eqb_spec (Z.of_nat (length (League.teams lg))) (-1)); [lia|].
  rewrite Array_splice1_middle, app_nil_r.
  destruct lg; reflexivity.
Qed.

Lemma addTeam_removeTeam_roundtrip_witness :
  League.removeTeam table_teams
    (snd (League.addTeam (table_league [1%positive; 2%positive])
            (VTeam 3%positive)))
    "T3"
  = (Ok, table_league [1%positive; 2%positive]).
Proof.
  apply (addTeam_removeTeam_roundtrip table_teams
           (table_league [1%positive; 2%positive]) 3%positive
           (Team.updateStats (Team.constructor "T3" None None) 2 0 3)).
  - reflexivity.
  - intros l tm Hl E.
    apply elem_of_cons in Hl as [->|Hl];
      [|apply list_elem_of_singleton in Hl; subst l];
      vm_compute in E; injection E as <-; discriminate.
Defined.

End LeagueMore.

(** ** League: what a recorded match changes and what it keeps *)

Section RecordMatchMore.

Implicit Types (th : gmap loc Team.t) (lg : League.t) (tm : Team.t).
Implicit Types (n m home away : string) (hg ag now : Z) (l h a : loc).
Implicit Types (ls : list loc) (f : Team.t -> Z).

Lemma call_updateStats_lookup th l gs gc pe l' :
  League.call_updateStats th l gs gc pe !! l'
  = (fun tm => if decide (l = l') then Team.updateStats tm gs gc pe else tm)
      <$> th !! l'.
Proof.
  unfold League.call_updateStats.
  destruct (th !! l) as [tm|] eqn:E.
  - destruct (decide (l = l')) as [<-|Hne].
    + rewrite lookup_insert_eq, E. reflexivity.
    + rewrite lookup_insert_ne by assumption.
      destruct (th !! l'); reflexivity.
  - destruct (decide (l = l')) as [<-|Hne].
    + rewrite E. reflexivity.
    + destruct (th !! l'); reflexivity.
Qed.

(** The two branches of [recordMatch]. *)
Lemma recordMatch_cases th lg home away hg ag now :
  League.recordMatch th lg home away hg ag now
  = match League.getTeam th lg home, League.getTeam th lg away with
    | Some h, Some a =>
        (Ok,
         (League.call_updateStats
            (League.call_updateStats th h hg ag (home_award hg ag))
            a ag hg (away_award hg ag),
          League.set_matches
            (League.matches lg ++ [League.mk_match home away hg ag now]) lg))
    | _, _ => (Error "One or both teams not found", (th, lg))
    end.
Proof.
  destruct (League.getTeam th lg home) as [h|] eqn:Hh;
    [destruct (League.getTeam th lg away) as [a|] eqn:Ha|].
  - apply recordMatch_resolved; assumption.
  - apply recordMatch_miss. right. exact Ha.
  - rewrite recordMatch_miss by (left; exact Hh).
    destruct (League.getTeam th lg away); reflexivity.
Qed.

(** Every Team after a match is the Team before, updated once for each
    side it played. *)
Lemma recordMatch_lookup th lg home away hg ag now l :
  fst (snd (League.recordMatch th lg home away hg ag now)) !! l
  = match League.getTeam th lg home, League.getTeam th lg away with
    | Some h, Some a =>
        (fun tm =>
           let tm := if decide (h = l)
                     then Team.updateStats tm hg ag (home_award hg ag) else tm in
           if decide (a = l)
           then Team.updateStats tm ag hg (away_award hg ag) else tm)
          <$> th !! l
    | _, _ => th !! l
    end.
Proof.
  rewrite recordMatch_cases.
  destruct (League.getTeam th lg home) as [h|]; [|reflexivity].
  destruct (League.getTeam th lg away) as [a|]; [|reflexivity].
  cbn [fst snd]. rewrite !call_updateStats_lookup.
  destruct (th !! l); reflexivity.
Qed.

Lemma awards_nonneg hg ag :
  0 <= home_award hg ag /\ 0 <= away_award hg ag /\
  home_award hg ag + away_award hg ag = (if hg =? ag then 2 else 3).
Proof.
  unfold home_award, away_award. rewrite Z.gtb_ltb.
  destruct (Z.ltb_spec ag hg), (Z.ltb_spec hg ag), (Z.eqb_spec hg ag); lia.
Qed.

Lemma recordMatch_description th lg home away hg ag now l :
  description_of (fst (snd (League.recordMatch th lg home away hg ag now))) l
  = description_of th l.
Proof.
  unfold description_of. rewrite recordMatch_lookup.
  destruct (League.getTeam th lg home) as [h|]; [|reflexivity].
  destruct (League.getTeam th lg away) as [a|]; [|reflexivity].
  destruct (th !! l) as [tm|]; [|reflexivity]. cbn.
  destruct (decide (h = l)), (decide (a = l)); reflexivity.
Qed.

Lemma recordMatch_teams th lg home away hg ag now :
  League.teams (snd (snd (League.recordMatch th lg home away hg ag now)))
  = League.teams lg.
Proof.
  rewrite recordMatch_cases.
  destruct (League.getTeam th lg home); [|reflexivity].
  destruct (League.getTeam th lg away); reflexivity.
Qed.

Lemma named_by_description th th' m l :
  description_of th' l = description_of th l ->
  League.named th' m l = League.named th m l.
Proof.
  unfold description_of, League.named.
  destruct (th' !! l), (th !! l); cbn; intros [=]; congruence.
Qed.

Lemma Array_find_ext {A} (f g : A -> bool) (xs : list A) :
  (forall x, f x = g x) -> Array_find f xs = Array_find g xs.
Proof.
  intros H. induction xs as [|x xs IH]; cbn; [reflexivity|].
  rewrite H, IH. reflexivity.
Qed.

Lemma recordMatch_getTeam th lg home away hg ag now m :
  let s := snd (League.recordMatch th lg home away hg ag now) in
  League.getTeam (fst s) (snd s) m = League.getTeam th lg m.
Proof.
  cbn zeta. unfold League.getTeam at 1. rewrite recordMatch_teams.
  apply Array_find_ext. intros l.
  apply named_by_description, recordMatch_description.
Qed.

(** X17: [recordMatch] writes statistics and the log only: every Team
    keeps its name, city, stadium and roster, the league keeps its list of
    Teams, every name resolves afterwards as it did before, and a Team
    that is neither side of the match is untouched. *)
Theorem recordMatch_keeps_membership th lg home away hg ag now :
  let s := snd (League.recordMatch th lg home away hg ag now) in
  League.teams (snd s) = League.teams lg /\
  (forall l, description_of (fst s) l = description_of th l) /\
  (forall m, League.getTeam (fst s) (snd s) m = League.getTeam th lg m) /\
  (forall l,
     League.getTeam th lg home <> Some l ->
     League.getTeam th lg away <> Some l ->
     fst s !! l = th !! l).
Proof.
  cbn zeta. split; [apply recordMatch_teams|].
  split; [intros l; apply recordMatch_description|].
  split; [intros m; apply recordMatch_getTeam|].
  intros l Hh Ha. rewrite recordMatch_lookup.
  destruct (League.getTeam th lg home) as [h|]; [|reflexivity].
  destruct (League.getTeam th lg away) as [a|]; [|reflexivity].
  destruct (th !! l) as [tm|]; [|reflexivity]. cbn.
  destruct (decide (h = l)); [congruence|].
  destruct (decide (a = l)); [congruence|]. reflexivity.
Qed.

(** X18: with goals that are not negative, no statistic of any Team ever
    goes down in [recordMatch], whether the match is recorded or not. *)
Theorem recordMatch_statistics_grow th lg home away hg ag now l :
  0 <= hg -> 0 <= ag ->
  let th' := fst (snd (League.recordMatch th lg home away hg ag now)) in
  stat Team.points th l <= stat Team.points th' l /\
  stat Team.goalsFor th l <= stat Team.goalsFor th' l /\
  stat Team.goalsAgainst th l <= stat Team.goalsAgainst th' l.
Proof.
  intros Hhg Hag. cbn zeta. unfold stat. rewrite recordMatch_lookup.
  pose proof (awards_nonneg hg ag) as (Hh & Ha & _).
  destruct (League.getTeam th lg home) as [h|]; [|lia].
  destruct (League.getTeam th lg away) as [a|]; [|lia].
  destruct (th !! l) as [tm|]; [|cbn; lia]. cbn.
  destruct (decide (h = l)), (decide (a = l)); cbn; lia.
Qed.

Lemma recordMatch_statistics_grow_witness :
  let th' := fst (snd (League.recordMatch table_teams
                         (table_league [1%positive; 2%positive])
                         "T1" "T2" 0 2 1000)) in
  stat Team.points table_teams 1%positive <= stat Team.points th' 1%positive /\
  stat Team.goalsFor table_teams 1%positive <= stat Team.goalsFor th' 1%positive /\
  stat Team.goalsAgainst table_teams 1%positive
  <= stat Team.goalsAgainst th' 1%positive.
Proof.
  apply (recordMatch_statistics_grow table_teams
           (table_league [1%positive; 2%positive]) "T1" "T2" 0 2 1000 1%positive);
    lia.
Defined.

Lemma total_insert_other f th l (t' : Team.t) ls :
  (forall l', l' ∈ ls -> l' <> l) ->
  total f (<[l := t']> th) ls = total f th ls.
Proof.
  induction ls as [|x ls IH]; intros H; [reflexivity|].
  change (total f (<[l := t']> th) (x :: ls))
    with (stat f (<[l := t']> th) x + total f (<[l := t']> th) ls).
  change (total f th (x :: ls)) with (stat f th x + total f th ls).
  rewrite IH by (intros l' Hl'; apply H; right; exact Hl').
  unfold stat. rewrite lookup_insert_ne; [reflexivity|].
  intros ->. apply (H x); [left | reflexivity].
Qed.

(** Replacing one Team of a duplicate-free list changes a total by the
    difference between the new and the old Team. *)
Lemma total_insert_in f th l (t t' : Team.t) ls :
  NoDup ls -> l ∈ ls -> th !! l = Some t ->
  total f (<[l := t']> th) ls = total f th ls + (f t' - f t).
Proof.
  intros Hnd Hl E. induction Hnd as [|x ls Hx Hnd IH].
  - inversion Hl.
  - change (total f (<[l := t']> th) (x :: ls))
      with (stat f (<[l := t']> th) x + total f (<[l := t']> th) ls).
    change (total f th (x :: ls)) with (stat f th x + total f th ls).
    destruct (decide (x = l)) as [->|Hne].
    + rewrite total_insert_other
        by (intros l' Hl' ->; contradiction).
      unfold stat. rewrite lookup_insert_eq, E. cbn. lia.
    + apply elem_of_cons in Hl as [->|Hl]; [contradiction|].
      rewrite (IH Hl). unfold stat.
      rewrite lookup_insert_ne by congruence. lia.
Qed.

(** The league totals after a recorded match, for any statistic [f] that
    [updateStats] raises by [dh] for the home side and [da] for the away
    side. *)
Lemma recordMatch_total f th lg home away hg ag now h a dh da :
  NoDup (League.teams lg) ->
  League.getTeam th lg home = Some h ->
  League.getTeam th lg away = Some a ->
  (forall tm, f (Team.updateStats tm hg ag (home_award hg ag)) = f tm + dh) ->
  (forall tm, f (Team.updateStats tm ag hg (away_award hg ag)) = f tm + da) ->
  total f (fst (snd (League.recordMatch th lg home away hg ag now)))
    (League.teams lg)
  = total f th (League.teams lg) + dh + da.
Proof.
  intros Hnd Hh Ha Hdh Hda.
  rewrite (recordMatch_resolved th lg home away hg ag now h a Hh Ha).
  cbn [fst snd].
  destruct (getTeam_Some th lg home h Hh) as (H & EH & _ & Hin).
  destruct (getTeam_Some th lg away a Ha) as (A & EA & _ & Ain).
  destruct (decide (h = a)) as [<-|Hne].
  - rewrite (call_updateStats_twice th h H _ _ _ _ _ _ EH).
    rewrite (total_insert_in f th h H _ _ Hnd Hin EH), Hda, Hdh. lia.
  - rewrite (call_updateStats_two th h a H A _ _ _ _ _ _ EH EA Hne).
    rewrite (total_insert_in f (<[h := _]> th) a A _ _ Hnd Ain)
      by (rewrite lookup_insert_ne by assumption; exact EA).
    rewrite (total_insert_in f th h H _ _ Hnd Hin EH), Hda, Hdh. lia.
Qed.

Lemma recordMatch_totals th lg home away hg ag now h a :
  NoDup (League.teams lg) ->
  League.getTeam th lg home = Some h ->
  League.getTeam th lg away = Some a ->
  let th' := fst (snd (League.recordMatch th lg home away hg ag now)) in
  total Team.points th' (League.teams lg)
  = total Team.points th (League.teams lg) + (if hg =? ag then 2 else 3) /\
  total Team.goalsFor th' (League.teams lg)
  = total Team.goalsFor th (League.teams lg) + (hg + ag) /\
  total Team.goalsAgainst th' (League.teams lg)
  = total Team.goalsAgainst th (League.teams lg) + (hg + ag).
Proof.
  intros Hnd Hh Ha. cbn zeta.
  pose proof (awards_nonneg hg ag) as (_ & _ & Hsum).
  rewrite (recordMatch_total Team.points th lg home away hg ag now h a
             (home_award hg ag) (away_award hg ag)) by (assumption || reflexivity).
  rewrite (recordMatch_total Team.goalsFor th lg home away hg ag now h a hg ag)
    by (assumption || reflexivity).
  rewrite (recordMatch_total Team.goalsAgainst th lg home away hg ag now h a ag hg)
    by (assumption || reflexivity).
  repeat split; lia.
Qed.

End RecordMatchMore.

(** ** League: a series of matches *)

Section Series.

Implicit Types (th : gmap loc Team.t) (lg : League.t).
Implicit Types (x y : fixture) (xs : list fixture).

Lemma play_one_log th lg x :
  let s := play_one (th, lg) x in
  League.matches (snd s)
  = League.matches lg ++ (if resolvable th lg x then [record_of x] else []) /\
  League.teams (snd s) = League.teams lg /\
  (forall y, resolvable (fst s) (snd s) y = resolvable th lg y).
Proof.
  cbn zeta. unfold play_one. cbn [fst snd]. split; [|split].
  - rewrite recordMatch_cases. unfold resolvable.
    destruct (League.getTeam th lg (f_home x));
      [destruct (League.getTeam th lg (f_away x))|];
      cbn; rewrite ?app_nil_r; reflexivity.
  - apply recordMatch_teams.
  - intros y. unfold resolvable.
    pose proof (recordMatch_getTeam th lg (f_home x) (f_away x)
                  (f_homeGoals x) (f_awayGoals x) (f_now x)) as H.
    cbn zeta in H. rewrite !H. reflexivity.
Qed.

Lemma play_log_from xs th lg :
  let s := play (th, lg) xs in
  League.matches (snd s)
  = League.matches lg ++ map record_of (List.filter (resolvable th lg) xs) /\
  League.teams (snd s) = League.teams lg /\
  (forall y, resolvable (fst s) (snd s) y = resolvable th lg y).
Proof.
  revert th lg. induction xs as [|x xs IH]; intros th lg.
  - cbn. rewrite app_nil_r. repeat split.
  - cbn zeta. change (play (th, lg) (x :: xs))
      with (play (play_one (th, lg) x) xs).
    destruct (play_one_log th lg x) as (H1 & H2 & H3).
    destruct (play_one (th, lg) x) as [th1 lg1] eqn:E1. cbn [fst snd] in *.
    destruct (IH th1 lg1) as (I1 & I2 & I3).
    split; [|split].
    + rewrite I1, H1, (List.filter_ext _ _ H3). cbn [List.filter].
      destruct (resolvable th lg x); cbn [map app];
        rewrite <- ?app_assoc; reflexivity.
    + congruence.
    + intros y. rewrite I3. apply H3.
Qed.

(** X20: a series of [recordMatch] calls extends the log by exactly the
    results whose two names are names of Teams of the league at the
    start, in the order given; earlier entries are never changed, the
    list of Teams stays, and so does which names resolve. *)
Theorem play_log th lg xs :
  let s := play (th, lg) xs in
  League.matches (snd s)
  = League.matches lg ++ map record_of (List.filter (resolvable th lg) xs) /\
  League.teams (snd s) = League.teams lg /\
  (forall y, resolvable (fst s) (snd s) y = resolvable th lg y).
Proof. apply play_log_from. Qed.

Lemma play_one_totals th lg x :
  NoDup (League.teams lg) ->
  let s := play_one (th, lg) x in
  let k := if resolvable th lg x then 1 else 0 in
  total Team.goalsFor (fst s) (League.teams lg)
  - total Team.goalsAgainst (fst s) (League.teams lg)
  = total Team.goalsFor th (League.teams lg)
    - total Team.goalsAgainst th (League.teams lg) /\
  2 * k <= total Team.points (fst s) (League.teams lg)
           - total Team.points th (League.teams lg) <= 3 * k.
Proof.
  intros Hnd. cbn zeta. unfold play_one, resolvable. cbn [fst snd].
  destruct (League.getTeam th lg (f_home x)) as [h|] eqn:Hh;
    [destruct (League.getTeam th lg (f_away x)) as [a|] eqn:Ha|].
  - destruct (recordMatch_totals th lg (f_home x) (f_away x)
                (f_homeGoals x) (f_awayGoals x) (f_now x) h a Hnd Hh Ha)
      as (Hp & Hf & Hg).
    cbn zeta in *. rewrite Hp, Hf, Hg.
    destruct (f_homeGoals x =? f_awayGoals x); lia.
  - rewrite recordMatch_miss by (right; exact Ha). cbn. lia.
  - rewrite recordMatch_miss by (left; exact Hh). cbn. lia.
Qed.

Lemma play_totals_from xs th lg :
  NoDup (League.teams lg) ->
  let s := play (th, lg) xs in
  let k := Z.of_nat (length (List.filter (resolvable th lg) xs)) in
  total Team.goalsFor (fst s) (League.teams lg)
  - total Team.goalsAgainst (fst s) (League.teams lg)
  = total Team.goalsFor th (League.teams lg)
    - total Team.goalsAgainst th (League.teams lg) /\
  2 * k <= total Team.points (fst s) (League.teams lg)
           - total Team.points th (League.teams lg) <= 3 * k.
Proof.
  revert th lg. induction xs as [|x xs IH]; intros th lg Hnd.
  - cbn. lia.
  - cbn zeta. change (play (th, lg) (x :: xs))
      with (play (play_one (th, lg) x) xs).
    destruct (play_one_log th lg x) as (_ & H2 & H3).
    destruct (play_one_totals th lg x Hnd) as (T1 & T2).
    destruct (play_one (th, lg) x) as [th1 lg1] eqn:E1. cbn [fst snd] in *.
    assert (Hnd1 : NoDup (League.teams lg1)) by (rewrite H2; exact Hnd).
    destruct (IH th1 lg1 Hnd1) as (I1 & I2). cbn zeta in I1, I2.
    rewrite H2 in I1, I2. rewrite (List.filter_ext _ _ H3) in I2.
    cbn [List.filter]. destruct (resolvable th lg x); cbn [length]; lia.
Qed.

End Series.

(** ** League: reading the table *)

Section TableMore.

Implicit Types (ph : gmap loc Player.t) (th : gmap loc Team.t) (lg : League.t).

Lemma standings_sorted ph th lg :
  StronglySorted ranks_before (League.getStandings ph th lg).
Proof.
  apply Array_sort_sorted.
  - exact compare_standing_ranks.
  - exact ranks_before_total.
  - exact ranks_before_trans.
Qed.

(** X22: in [getLeagueInfo] the standings have a row for every row of
    [teams] and no other, the log is handed out as it is, and no Team has
    more points than the first row of the standings; the standings are
    empty only for a league without Teams. *)
Theorem getLeagueInfo_leader ph th lg :
  let info := League.getLeagueInfo ph th lg in
  League.i_standings info ≡ₚ League.i_teams info /\
  League.i_matches info = League.matches lg /\
  match League.i_standings info with
  | [] => League.i_teams info = []
  | top :: _ =>
      Forall (fun row => Team.i_points (Team.i_stats row)
                         <= Team.i_points (Team.i_stats top))
        (League.i_teams info)
  end.
Proof.
  cbn zeta. cbn [League.getLeagueInfo League.i_standings League.i_teams
                 League.i_matches].
  pose proof (Array_sort_perm League.compare_standing
                (League.teams_info ph th (League.teams lg))) as Hp.
  pose proof (standings_sorted ph th lg) as Hs.
  unfold League.getStandings in *.
  split; [exact Hp|]. split; [reflexivity|].
  destruct (Array_sort _ _) as [|top rest].
  - apply Permutation.Permutation_nil, Hp.
  - apply StronglySorted_inv in Hs as [_ Hall].
    apply Forall_forall. intros row Hrow. rewrite <- Hp in Hrow.
    apply elem_of_cons in Hrow as [->|Hrow]; [lia|].
    rewrite Forall_forall in Hall. specialize (Hall row Hrow).
    unfold ranks_before in Hall. lia.
Qed.

(** X23: when the Teams were added in the order of the table, the
    standings are the snapshots in that same order: sorting moves
    nothing. *)
Theorem getStandings_of_ordered ph th lg :
  StronglySorted ranks_before (League.teams_info ph th (League.teams lg)) ->
  League.getStandings ph th lg = League.teams_info ph th (League.teams lg).
Proof.
  intros Hs. unfold League.getStandings. symmetry.
  apply (stable_sort_unique _ ranks_before standing_key).
  - exact compare_standing_ranks.
  - exact ranks_before_total.
  - exact ranks_before_trans.
  - exact standing_key_ranks.
  - exact ranks_standing_key.
  - reflexivity.
  - exact Hs.
  - reflexivity.
Qed.

Lemma getStandings_of_ordered_witness :
  map Team.i_name
    (League.getStandings ∅ table_teams
       (table_league [3%positive; 2%positive; 4%positive; 1%positive]))
  = ["T3"; "T2"; "T4"; "T1"]%string.
Proof.
  rewrite getStandings_of_ordered; [reflexivity|].
  set (rows := League.teams_info _ _ _). vm_compute in rows. subst rows.
  repeat constructor; unfold ranks_before; cbn; lia.
Defined.

End TableMore.

(** * The statistics in the source's arithmetic *)

(** ** Numbers: where binary64 arithmetic is exact *)

Section NumberFacts.

(** [p] shifted left by [k] bits. *)
Local Abbreviation shl p k := (Nat.iter k xO p).

Lemma Pos_iter_shl (p q : positive) : Pos.iter xO p q = shl p (Pos.to_nat q).
Proof. apply Pos2Nat.inj_iter. Qed.

Lemma iter_pos_nat {A} (f : A -> A) (q : positive) (x : A) :
  iter_pos f q x = Nat.iter (Pos.to_nat q) f x.
Proof.
  revert x. induction q as [q IH | q IH |]; intros x; cbn [iter_pos].
  - rewrite !IH, Pos2Nat.inj_xI.
    replace (S (2 * Pos.to_nat q))%nat
      with (Pos.to_nat q + (Pos.to_nat q + 1))%nat by lia.
    rewrite !Nat.iter_add. reflexivity.
  - rewrite !IH, Pos2Nat.inj_xO.
    replace (2 * Pos.to_nat q)%nat
      with (Pos.to_nat q + Pos.to_nat q)%nat by lia.
    rewrite Nat.iter_add. reflexivity.
  - reflexivity.
Qed.

Lemma Zpos_shl (p : positive) (k : nat) :
  Zpos (shl p k) = Zpos p * 2 ^ Z.of_nat k.
Proof.
  induction k as [|k IH].
  - cbn. lia.
  - change (shl p (S k)) with (xO (shl p k)).
    rewrite Pos2Z.inj_xO, IH, Nat2Z.inj_succ, Z.pow_succ_r by lia.
    lia.
Qed.

Lemma digits_shl (p : positive) (k : nat) :
  Zpos (digits2_pos (shl p k)) = Zpos (digits2_pos p) + Z.of_nat k.
Proof.
  induction k as [|k IH].
  - cbn. lia.
  - change (shl p (S k)) with (xO (shl p k)). cbn [digits2_pos].
    rewrite Pos2Z.inj_succ, IH. lia.
Qed.

Lemma shr_1_shl (p : positive) (n j : nat) :
  Nat.iter n shr_1 (Build_shr_record (Zpos (shl p (n + j))) false false)
  = Build_shr_record (Zpos (shl p j)) false false.
Proof.
  induction n as [|n IH]; [reflexivity|].
  rewrite Nat.iter_succ_r.
  change (shl p (S n + j)) with (xO (shl p (n + j))).
  cbn [shr_1 orb]. exact IH.
Qed.

Lemma fexp_small (d : Z) : -1021 <= d -> fexp 53 1024 d = d - 53.
Proof. intros H. unfold fexp, emin. lia. Qed.

(** A mantissa of 53 bits is not shifted. *)
Lemma shr_fexp_full (m : positive) (e : Z) :
  Zpos (digits2_pos m) = 53 -> -1074 <= e ->
  shr_fexp 53 1024 (Zpos m) e loc_Exact
  = (Build_shr_record (Zpos m) false false, e).
Proof.
  intros Hd He. unfold shr_fexp. cbn [Zdigits2 shr_record_of_loc].
  rewrite Hd, fexp_small by lia.
  replace (53 + e - 53 - e) with 0 by lia. reflexivity.
Qed.

Lemma binary_round_aux_full s (m : positive) (e : Z) :
  Zpos (digits2_pos m) = 53 -> -1074 <= e <= 971 ->
  binary_round_aux 53 1024 s (Zpos m) e loc_Exact = S754_finite s m e.
Proof.
  intros Hd He. unfold binary_round_aux.
  rewrite shr_fexp_full by lia. cbn [shr_m loc_of_shr_record round_nearest_even].
  rewrite shr_fexp_full by lia. cbn [shr_m].
  destruct (Z.leb_spec e (1024 - 53)); [reflexivity | lia].
Qed.

(** Zero bits shifted out leave the value and an exact location. *)
Lemma shr_fexp_shl (p : positive) (k : nat) :
  let d := Zpos (digits2_pos p) in
  d <= 53 -> 53 - d <= Z.of_nat k ->
  shr_fexp 53 1024 (Zpos (shl p k)) (- Z.of_nat k) loc_Exact
  = (Build_shr_record (Zpos (shl p (Z.to_nat (53 - d)))) false false, d - 53).
Proof.
  intros d Hd Hk. unfold shr_fexp. cbn [Zdigits2 shr_record_of_loc].
  rewrite digits_shl. fold d.
  replace (d + Z.of_nat k + - Z.of_nat k) with d by lia.
  rewrite fexp_small by (unfold d; lia).
  destruct (d - 53 - - Z.of_nat k) as [|q|q] eqn:E; cbn [shr].
  - replace (Z.to_nat (53 - d)) with k by lia.
    f_equal. lia.
  - rewrite iter_pos_nat.
    assert (Hk' : k = (Pos.to_nat q + Z.to_nat (53 - d))%nat) by lia.
    f_equal; [|lia]. rewrite Hk'. apply shr_1_shl.
  - lia.
Qed.

(** Rounding a value that fits in 53 bits, however it is aligned, gives
    the 53-bit mantissa of that value. *)
Lemma binary_round_shl s (p : positive) (k : nat) :
  let d := Zpos (digits2_pos p) in
  d <= 53 ->
  binary_round 53 1024 s (shl p k) (- Z.of_nat k)
  = S754_finite s (shl p (Z.to_nat (53 - d))) (d - 53).
Proof.
  intros d Hd. unfold binary_round.
  rewrite digits_shl. fold d.
  replace (d + Z.of_nat k + - Z.of_nat k) with d by lia.
  rewrite fexp_small by (unfold d; lia).
  assert (Hfull : Zpos (digits2_pos (shl p (Z.to_nat (53 - d)))) = 53).
  { rewrite digits_shl. fold d. lia. }
  unfold shl_align.
  destruct (d - 53 - - Z.of_nat k) as [|q|q] eqn:E.
  - unfold binary_round_aux. rewrite shr_fexp_shl by (fold d; lia). fold d.
    cbn [shr_m loc_of_shr_record round_nearest_even].
    rewrite shr_fexp_full by (unfold d in *; lia). cbn [shr_m].
    destruct (Z.leb_spec (d - 53) (1024 - 53)); [reflexivity | lia].
  - unfold binary_round_aux. rewrite shr_fexp_shl by (fold d; lia). fold d.
    cbn [shr_m loc_of_shr_record round_nearest_even].
    rewrite shr_fexp_full by (unfold d in *; lia). cbn [shr_m].
    destruct (Z.leb_spec (d - 53) (1024 - 53)); [reflexivity | lia].
  - rewrite Pos_iter_shl, <- Nat.iter_add.
    replace (Pos.to_nat q + k)%nat with (Z.to_nat (53 - d)) by lia.
    apply binary_round_aux_full; [exact Hfull | unfold d; lia].
Qed.

Lemma digits_safe (p : positive) :
  Zpos p <= 2 ^ 53 - 1 -> Zpos (digits2_pos p) <= 53.
Proof.
  intros Hp. pose proof (Pos.size_le p) as H.
  apply Pos2Z.pos_le_pos in H. rewrite Pos2Z.inj_pow, (Pos2Z.inj_xO p) in H.
  change digits2_pos with Pos.size.
  destruct (Z_le_gt_dec (Zpos (Pos.size p)) 53) as [|Hgt]; [assumption|].
  assert (2 ^ 54 <= 2 ^ Zpos (Pos.size p)) by (apply Z.pow_le_mono_r; lia).
  lia.
Qed.

(** The number that an integer below 2^53 in magnitude denotes. *)
Lemma of_Z_pos (p : positive) :
  Zpos p <= 2 ^ 53 - 1 ->
  Number.of_Z (Zpos p)
  = S754_finite false (shl p (Z.to_nat (53 - Zpos (digits2_pos p))))
      (Zpos (digits2_pos p) - 53).
Proof.
  intros Hp. apply (binary_round_shl false p 0), digits_safe, Hp.
Qed.

Lemma of_Z_neg (p : positive) :
  Zpos p <= 2 ^ 53 - 1 ->
  Number.of_Z (Zneg p)
  = S754_finite true (shl p (Z.to_nat (53 - Zpos (digits2_pos p))))
      (Zpos (digits2_pos p) - 53).
Proof.
  intros Hp. apply (binary_round_shl true p 0), digits_safe, Hp.
Qed.

(** An exact result, whatever its alignment, is normalised to the number
    it denotes. *)
Lemma binary_normalize_shifted (z : Z) (k : nat) :
  safe_integer z ->
  binary_normalize 53 1024 (z * 2 ^ Z.of_nat k) (- Z.of_nat k) false
  = Number.of_Z z.
Proof.
  intros Hz. unfold safe_integer in Hz. destruct z as [|p|p].
  - reflexivity.
  - rewrite <- Zpos_shl, of_Z_pos by lia. cbn [binary_normalize].
    apply binary_round_shl, digits_safe. lia.
  - rewrite of_Z_neg by lia.
    replace (Z.neg p * 2 ^ Z.of_nat k) with (Z.neg (shl p k))
      by (rewrite <- Pos2Z.opp_pos, Zpos_shl; lia).
    cbn [binary_normalize].
    apply binary_round_shl, digits_safe. lia.
Qed.

Lemma shl_align_fst (m : positive) (ex ez : Z) :
  ez <= ex -> fst (shl_align m ex ez) = shl m (Z.to_nat (ex - ez)).
Proof.
  intros H. unfold shl_align.
  destruct (ez - ex) as [|q|q] eqn:E; cbn [fst].
  - replace (ex - ez) with 0 by lia. reflexivity.
  - lia.
  - rewrite Pos_iter_shl. f_equal. lia.
Qed.

(** The two operands of an addition, aligned: both are the integers they
    denote, scaled by the same power of two. *)
Lemma aligned (z : Z) :
  z <> 0 -> safe_integer z ->
  exists s m e,
    Number.of_Z z = S754_finite s m e /\ -52 <= e <= 0 /\
    forall ez, ez <= e ->
      cond_Zopp s (Zpos (fst (shl_align m e ez))) = z * 2 ^ (- ez).
Proof.
  intros Hz Hs. unfold safe_integer in Hs.
  destruct z as [|p|p]; [congruence| |].
  - pose proof (digits_safe p ltac:(lia)) as Hd.
    exists false, (shl p (Z.to_nat (53 - Zpos (digits2_pos p)))),
      (Zpos (digits2_pos p) - 53).
    split; [apply of_Z_pos; lia|]. split; [lia|].
    intros ez He. rewrite shl_align_fst by exact He. cbn [cond_Zopp].
    rewrite <- Nat.iter_add, Zpos_shl. f_equal. f_equal. lia.
  - pose proof (digits_safe p ltac:(lia)) as Hd.
    exists true, (shl p (Z.to_nat (53 - Zpos (digits2_pos p)))),
      (Zpos (digits2_pos p) - 53).
    split; [apply of_Z_neg; lia|]. split; [lia|].
    intros ez He. rewrite shl_align_fst by exact He. cbn [cond_Zopp].
    rewrite <- Nat.iter_add, Zpos_shl, <- Pos2Z.opp_pos.
    rewrite <- Z.mul_opp_l. f_equal. f_equal. lia.
Qed.

(** Addition of safe integers with a safe sum is exact. *)
Lemma add_exact (a b : Z) :
  safe_integer a -> safe_integer b -> safe_integer (a + b) ->
  Number.add (Number.of_Z a) (Number.of_Z b) = Number.of_Z (a + b).
Proof.
  intros Ha Hb Hab.
  destruct (Z.eq_dec a 0) as [->|Hna].
  { rewrite Z.add_0_l. change (Number.of_Z 0) with (S754_zero false).
    destruct (Z.eq_dec b 0) as [->|Hnb]; [reflexivity|].
    destruct (aligned b Hnb Hb) as (s & m & e & -> & _). reflexivity. }
  destruct (Z.eq_dec b 0) as [->|Hnb].
  { rewrite Z.add_0_r. change (Number.of_Z 0) with (S754_zero false).
    destruct (aligned a Hna Ha) as (s & m & e & -> & _). reflexivity. }
  destruct (aligned a Hna Ha) as (sa & ma & ea & -> & Hea & Aa).
  destruct (aligned b Hnb Hb) as (sb & mb & eb & -> & Heb & Ab).
  unfold Number.add, SFadd.
  rewrite Aa, Ab by lia.
  rewrite <- Z.mul_add_distr_r.
  replace (- Z.min ea eb) with (Z.of_nat (Z.to_nat (- Z.min ea eb))) by lia.
  replace (Z.min ea eb) with (- Z.of_nat (Z.to_nat (- Z.min ea eb))) at 2 by lia.
  apply (binary_normalize_shifted (a + b)), Hab.
Qed.

Lemma sub_exact (a b : Z) :
  safe_integer a -> safe_integer b -> safe_integer (a - b) ->
  Number.sub (Number.of_Z a) (Number.of_Z b) = Number.of_Z (a - b).
Proof.
  intros Ha Hb Hab.
  destruct (Z.eq_dec b 0) as [->|Hnb].
  { rewrite Z.sub_0_r. change (Number.of_Z 0) with (S754_zero false).
    destruct (Z.eq_dec a 0) as [->|Hna]; [reflexivity|].
    destruct (aligned a Hna Ha) as (s & m & e & -> & _). reflexivity. }
  destruct (Z.eq_dec a 0) as [->|Hna].
  { rewrite Z.sub_0_l. change (Number.of_Z 0) with (S754_zero false).
    unfold safe_integer in Hb.
    destruct b as [|p|p]; [congruence| |].
    - change (- Z.pos p) with (Z.neg p).
      rewrite of_Z_pos, of_Z_neg by lia. reflexivity.
    - change (- Z.neg p) with (Z.pos p).
      rewrite of_Z_pos, of_Z_neg by lia. reflexivity. }
  destruct (aligned a Hna Ha) as (sa & ma & ea & -> & Hea & Aa).
  destruct (aligned b Hnb Hb) as (sb & mb & eb & -> & Heb & Ab).
  unfold Number.sub, SFsub.
  rewrite Aa, Ab by lia.
  rewrite <- Z.mul_sub_distr_r.
  replace (- Z.min ea eb) with (Z.of_nat (Z.to_nat (- Z.min ea eb))) by lia.
  replace (Z.min ea eb) with (- Z.of_nat (Z.to_nat (- Z.min ea eb))) at 2 by lia.
  apply (binary_normalize_shifted (a - b)), Hab.
Qed.

Lemma digits_lt (p q : positive) :
  Zpos (digits2_pos p) < Zpos (digits2_pos q) -> (p < q)%positive.
Proof.
  change digits2_pos with Pos.size. intros H.
  pose proof (Pos.size_gt p) as Hp. pose proof (Pos.size_le q) as Hq.
  apply Pos2Z.pos_lt_pos in Hp. apply Pos2Z.pos_le_pos in Hq.
  rewrite Pos2Z.inj_pow in Hp, Hq. rewrite (Pos2Z.inj_xO q) in Hq.
  apply Pos2Z.pos_lt_pos.
  assert (2 * 2 ^ Zpos (Pos.size p) <= 2 ^ Zpos (Pos.size q)).
  { rewrite <- Z.pow_succ_r by lia. apply Z.pow_le_mono_r; lia. }
  lia.
Qed.

Lemma compare_shl (p q : positive) (k : nat) :
  (shl p k ?= shl q k)%positive = (p ?= q)%positive.
Proof.
  induction k as [|k IH]; [reflexivity|].
  change (shl p (S k)) with (xO (shl p k)).
  change (shl q (S k)) with (xO (shl q k)).
  rewrite Pos.compare_xO_xO. exact IH.
Qed.

(** Comparing 53-bit mantissas by exponent first is comparing values. *)
Lemma compare_canonical (p q : positive) :
  let dp := Zpos (digits2_pos p) in
  let dq := Zpos (digits2_pos q) in
  match dp - 53 ?= dq - 53 with
  | Lt => Lt
  | Gt => Gt
  | Eq => Pos.compare_cont Eq (shl p (Z.to_nat (53 - dp)))
            (shl q (Z.to_nat (53 - dq)))
  end = (p ?= q)%positive.
Proof.
  intros dp dq. destruct (Z.compare_spec (dp - 53) (dq - 53)) as [E|E|E].
  - replace dq with dp by lia. apply compare_shl.
  - symmetry. apply Pos.compare_lt_iff, digits_lt. fold dp dq. lia.
  - symmetry. apply Pos.compare_gt_iff, digits_lt. fold dp dq. lia.
Qed.

(** Safe integers compare as the numbers they denote. *)
Lemma compare_exact (a b : Z) :
  safe_integer a -> safe_integer b ->
  SFcompare (Number.of_Z a) (Number.of_Z b) = Some (a ?= b).
Proof.
  unfold safe_integer. intros Ha Hb.
  destruct a as [|p|p], b as [|q|q];
    rewrite ?of_Z_pos, ?of_Z_neg by lia;
    change (Number.of_Z 0) with (S754_zero false);
    cbn [SFcompare]; try reflexivity.
  - rewrite compare_canonical. reflexivity.
  - f_equal. cbn [Z.compare].
    pose proof (compare_canonical p q) as H. cbn zeta in H.
    destruct (Z.compare_spec (Zpos (digits2_pos p) - 53)
                (Zpos (digits2_pos q) - 53));
      rewrite <- H; reflexivity.
Qed.

Lemma ltb_exact (a b : Z) :
  safe_integer a -> safe_integer b ->
  Number.ltb (Number.of_Z a) (Number.of_Z b) = (a <? b).
Proof.
  intros Ha Hb. unfold Number.ltb, SFltb, Z.ltb.
  rewrite compare_exact by assumption. reflexivity.
Qed.

Lemma gtb_exact (a b : Z) :
  safe_integer a -> safe_integer b ->
  Number.gtb (Number.of_Z a) (Number.of_Z b) = (a >? b).
Proof.
  intros Ha Hb. unfold Number.gtb. rewrite Z.gtb_ltb.
  apply ltb_exact; assumption.
Qed.

(** Different safe integers denote different numbers. *)
Lemma of_Z_inj (a b : Z) :
  safe_integer a -> safe_integer b ->
  Number.of_Z a = Number.of_Z b -> a = b.
Proof.
  intros Ha Hb E. apply Z.compare_eq.
  pose proof (compare_exact a b Ha Hb) as H. rewrite E in H.
  pose proof (compare_exact b b Hb Hb) as H'. rewrite Z.compare_refl in H'.
  congruence.
Qed.

End NumberFacts.

(** ** The integer model is the source's computation on safe integers *)

Section Exactness.

Implicit Types (th : gmap loc Team.t) (lg : League.t) (tm : Team.t).
Implicit Types (n home away : string) (hg ag gs gc pe now : Z) (l h a : loc).

Lemma updateStats_refines tm gs gc pe :
  exact_update tm gs gc pe ->
  Team64.updateStats (Team64.of_model tm)
    (Number.of_Z gs) (Number.of_Z gc) (Number.of_Z pe)
  = Team64.of_model (Team.updateStats tm gs gc pe).
Proof.
  intros ((F1 & F2 & F3) & (A1 & A2 & A3) & (P1 & P2 & P3)).
  unfold Team64.updateStats, Team64.of_model, Team.updateStats.
  cbn. rewrite !add_exact by assumption. reflexivity.
Qed.

Lemma named_of_heap th n l :
  League64.named (League64.of_heap th) n l = League.named th n l.
Proof.
  unfold League64.named, League.named, League64.of_heap.
  rewrite lookup_fmap. destruct (th !! l); reflexivity.
Qed.

Lemma getTeam_of_state th lg n :
  League64.getTeam (League64.of_heap th) (League64.of_model lg) n
  = League.getTeam th lg n.
Proof.
  unfold League64.getTeam, League.getTeam. cbn [League64.teams League64.of_model].
  apply Array_find_ext. intros l. apply named_of_heap.
Qed.

Lemma call_updateStats_refines th l gs gc pe :
  (forall tm, th !! l = Some tm -> exact_update tm gs gc pe) ->
  League64.call_updateStats (League64.of_heap th) l
    (Number.of_Z gs) (Number.of_Z gc) (Number.of_Z pe)
  = League64.of_heap (League.call_updateStats th l gs gc pe).
Proof.
  intros Hex. unfold League64.call_updateStats, League.call_updateStats,
    League64.of_heap.
  rewrite lookup_fmap. destruct (th !! l) as [tm|] eqn:E; cbn [fmap option_fmap option_map].
  - rewrite updateStats_refines by (apply Hex; reflexivity).
    rewrite fmap_insert. reflexivity.
  - reflexivity.
Qed.

Lemma awards_refine hg ag :
  safe_integer hg -> safe_integer ag ->
  (if Number.gtb (Number.of_Z hg) (Number.of_Z ag)
   then (Number.of_Z 3, Number.of_Z 0)
   else if Number.ltb (Number.of_Z hg) (Number.of_Z ag)
        then (Number.of_Z 0, Number.of_Z 3)
        else (Number.of_Z 1, Number.of_Z 1))
  = (Number.of_Z (home_award hg ag), Number.of_Z (away_award hg ag)).
Proof.
  intros Hh Ha. rewrite gtb_exact, ltb_exact by assumption.
  unfold home_award, away_award.
  destruct (hg >? ag); [reflexivity|]. destruct (hg <? ag); reflexivity.
Qed.

(** On an exact match the source computes what the integer model
    computes. *)
Lemma recordMatch_refines th lg home away hg ag now :
  exact_match th lg home away hg ag ->
  League64.recordMatch (League64.of_heap th) (League64.of_model lg)
    home away (Number.of_Z hg) (Number.of_Z ag) now
  = League64.of_outcome (League.recordMatch th lg home away hg ag now).
Proof.
  intros (Hhg & Hag & Hex).
  unfold League64.recordMatch. rewrite !getTeam_of_state, recordMatch_cases.
  destruct (League.getTeam th lg home) as [h|]; [|reflexivity].
  destruct (League.getTeam th lg away) as [a|]; [|reflexivity].
  destruct (Hex h a eq_refl eq_refl) as (Hhome & Haway).
  rewrite awards_refine by assumption.
  rewrite (call_updateStats_refines th h) by exact Hhome.
  rewrite (call_updateStats_refines _ a) by exact Haway.
  unfold League64.of_outcome, League64.of_state. cbn [fst snd]. f_equal. f_equal.
  unfold League64.set_matches, League64.of_model. cbn.
  rewrite fmap_app. reflexivity.
Qed.

Lemma play_refines xs (s : gmap loc Team.t * League.t) :
  exact_series s xs ->
  play64 (League64.of_state s) xs = League64.of_state (play s xs).
Proof.
  revert s. induction xs as [|x xs IH]; intros s H; [reflexivity|].
  destruct H as [Hx Hxs].
  change (play64 (League64.of_state s) (x :: xs))
    with (play64 (play64_one (League64.of_state s) x) xs).
  change (play s (x :: xs)) with (play (play_one s x) xs).
  rewrite <- (IH _ Hxs). f_equal.
  unfold play64_one, play_one. cbn [fst snd League64.of_state].
  rewrite recordMatch_refines by exact Hx. reflexivity.
Qed.

(** Moderate statistics and amounts make an exact update. *)
Lemma moderate_exact_update tm gs gc pe :
  moderate (Team.points tm) -> moderate (Team.goalsFor tm) ->
  moderate (Team.goalsAgainst tm) ->
  moderate gs -> moderate gc -> moderate pe ->
  exact_update tm gs gc pe.
Proof.
  unfold moderate, exact_update, safe_integer. intros. repeat split; lia.
Qed.

End Exactness.

(** ** Exact sums of statistics *)

Section ExactClaims.

Implicit Types (th : gmap loc Team.t) (lg : League.t) (tm : Team.t).
Implicit Types (n home away : string) (hg ag gs gc pe now : Z) (l h a : loc).

(** [exact_match] at a given state and given goals, by evaluation. *)
Ltac exact_match_at_state :=
  unfold exact_match, safe_integer;
  split; [cbn; lia|]; split; [cbn; lia|];
  let Hh := fresh "Hh" in
  let Ha := fresh "Ha" in
  intros ? ? Hh Ha; vm_compute in Hh, Ha; try discriminate;
  injection Hh as <-; injection Ha as <-;
  let E := fresh "E" in
  split; intros ? E; vm_compute in E; injection E as <-;
  unfold exact_update, safe_integer; cbn; lia.

(** Beyond the safe integers the source's addition rounds: 2^53 + 1 is
    2^53, and 2^53 + 3 is 2^53 + 4. *)
Example add_rounds :
  Number.add (Number.of_Z (2 ^ 53)) (Number.of_Z 1) = Number.of_Z (2 ^ 53) /\
  Number.add (Number.of_Z (2 ^ 53)) (Number.of_Z 3) = Number.of_Z (2 ^ 53 + 4).
Proof. vm_compute. split; reflexivity. Qed.

(** C1, amended: when the two names differ and both resolve, and the
    goals and the statistics that the match reads and writes are safe
    integers, [recordMatch] succeeds, awards 3/0, 0/3 or 1/1 points by the
    result, adds [homeGoals]/[awayGoals] to the home Team's goals
    for/against and [awayGoals]/[homeGoals] to the away Team's, and
    appends exactly one record to the match log; and this is what the
    source computes in binary64 arithmetic. *)
Theorem recordMatch_between_two_teams th lg home away hg ag now h a :
  League.getTeam th lg home = Some h ->
  League.getTeam th lg away = Some a ->
  home <> away ->
  exact_match th lg home away hg ag ->
  recordMatch_effect th lg home away hg ag now h a /\
  League64.recordMatch (League64.of_heap th) (League64.of_model lg)
    home away (Number.of_Z hg) (Number.of_Z ag) now
  = League64.of_outcome (League.recordMatch th lg home away hg ag now).
Proof.
  intros Hh Ha Hne Hex. split.
  - apply recordMatch_effect_of_two_teams; assumption.
  - apply recordMatch_refines, Hex.
Qed.

Lemma recordMatch_between_two_teams_witness :
  let th : gmap loc Team.t :=
    {[ 1%positive := Team.constructor "A" None None;
       2%positive := Team.constructor "B" None None ]} in
  let lg := League.set_teams [1%positive; 2%positive]
              (League.constructor "L" None) in
  recordMatch_effect th lg "A" "B" 3 1 1000 1%positive 2%positive.
Proof.
  intros th lg.
  refine (proj1 (recordMatch_between_two_teams th lg "A" "B" 3 1 1000
                   1%positive 2%positive _ _ _ _)).
  - reflexivity.
  - reflexivity.
  - discriminate.
  - exact_match_at_state.
Defined.




(** The same between two Teams: after A has beaten B 2^53 : 0, the match
    A against B 1 : 0 leaves A's goals for at 2^53. *)
Example recordMatch_two_teams_rounds :
  let th := fst duo64_after_big_match in
  let lg := snd duo64_after_big_match in
  let out :=
    League64.recordMatch th lg "A" "B" (Number.of_Z 1) (Number.of_Z 0) 2000 in
  fst out = Ok /\
  Team64.goalsFor <$> th !! 1%positive = Some (Number.of_Z (2 ^ 53)) /\
  Team64.goalsFor <$> fst (snd out) !! 1%positive = Some (Number.of_Z (2 ^ 53)) /\
  Number.of_Z (2 ^ 53 + 1) = Number.of_Z (2 ^ 53).
Proof. vm_compute. repeat split. Qed.

(** X13: for statistics and amounts of moderate size (at most 2^50 in
    magnitude) [Team.updateStats] accumulates: two updates are one update
    with the sums, in either order, and the goal difference of the
    snapshot moves by goals scored minus goals conceded; name and roster
    stay.  The same holds of the source in binary64 arithmetic. *)
Theorem updateStats_accumulates ph tm gs gc pe gs' gc' pe' :
  Forall moderate
    [Team.points tm; Team.goalsFor tm; Team.goalsAgainst tm;
     gs; gc; pe; gs'; gc'; pe'] ->
  (Team.updateStats (Team.updateStats tm gs gc pe) gs' gc' pe'
   = Team.updateStats tm (gs + gs') (gc + gc') (pe + pe') /\
   Team.updateStats (Team.updateStats tm gs gc pe) gs' gc' pe'
   = Team.updateStats (Team.updateStats tm gs' gc' pe') gs gc pe /\
   Team.i_goalDifference
     (Team.i_stats (Team.getTeamInfo ph (Team.updateStats tm gs gc pe)))
   = Team.i_goalDifference (Team.i_stats (Team.getTeamInfo ph tm)) + (gs - gc) /\
   Team.name (Team.updateStats tm gs gc pe) = Team.name tm /\
   Team.players (Team.updateStats tm gs gc pe) = Team.players tm) /\
  (let N := Number.of_Z in
   let T := Team64.of_model tm in
   Team64.updateStats (Team64.updateStats T (N gs) (N gc) (N pe))
     (N gs') (N gc') (N pe')
   = Team64.updateStats T (Number.add (N gs) (N gs'))
       (Number.add (N gc) (N gc')) (Number.add (N pe) (N pe')) /\
   Team64.updateStats (Team64.updateStats T (N gs) (N gc) (N pe))
     (N gs') (N gc') (N pe')
   = Team64.updateStats (Team64.updateStats T (N gs') (N gc') (N pe'))
       (N gs) (N gc) (N pe) /\
   Team64.i_goalDifference
     (Team64.getTeamInfo_stats (Team64.updateStats T (N gs) (N gc) (N pe)))
   = Number.add (Team64.i_goalDifference (Team64.getTeamInfo_stats T))
       (Number.sub (N gs) (N gc))).
Proof.
  rewrite !Forall_cons.
  intros (Hp & Hf & Ha & Hgs & Hgc & Hpe & Hgs' & Hgc' & Hpe' & _).
  split; [apply updateStats_sums|]. cbn zeta.
  pose proof (updateStats_sums ph tm gs gc pe gs' gc' pe') as (E1 & E2 & _).
  assert (X1 : exact_update tm gs gc pe)
    by (apply moderate_exact_update; assumption).
  assert (X2 : exact_update tm gs' gc' pe')
    by (apply moderate_exact_update; assumption).
  assert (X12 : exact_update (Team.updateStats tm gs gc pe) gs' gc' pe').
  { unfold moderate, exact_update, safe_integer in *. cbn. repeat split; lia. }
  assert (X21 : exact_update (Team.updateStats tm gs' gc' pe') gs gc pe).
  { unfold moderate, exact_update, safe_integer in *. cbn. repeat split; lia. }
  assert (Xs : exact_update tm (gs + gs') (gc + gc') (pe + pe')).
  { unfold moderate, exact_update, safe_integer in *. repeat split; lia. }
  split; [|split].
  - rewrite !add_exact by (unfold moderate, safe_integer in *; lia).
    rewrite !updateStats_refines by assumption. rewrite E1. reflexivity.
  - rewrite !updateStats_refines by assumption. rewrite E2. reflexivity.
  - rewrite updateStats_refines by assumption.
    unfold Team64.getTeamInfo_stats, Team64.of_model.
    cbn [Team64.i_goalDifference Team64.goalsFor Team64.goalsAgainst].
    cbn [Team.updateStats Team.goalsFor Team.goalsAgainst Team.set_points
         Team.set_goalsFor Team.set_goalsAgainst].
    rewrite !sub_exact, add_exact
      by (unfold moderate, safe_integer in *; lia).
    f_equal. lia.
Qed.

Lemma updateStats_accumulates_witness :
  let tm := Team.updateStats (Team.constructor "T2" None None) 0 1 3 in
  Team.updateStats (Team.updateStats tm 2 1 3) 0 0 1
  = Team.updateStats tm 2 1 4 /\
  Team64.updateStats
    (Team64.updateStats (Team64.of_model tm)
       (Number.of_Z 2) (Number.of_Z 1) (Number.of_Z 3))
    (Number.of_Z 0) (Number.of_Z 0) (Number.of_Z 1)
  = Team64.updateStats
      (Team64.updateStats (Team64.of_model tm)
         (Number.of_Z 0) (Number.of_Z 0) (Number.of_Z 1))
      (Number.of_Z 2) (Number.of_Z 1) (Number.of_Z 3).
Proof.
  intros tm.
  destruct (updateStats_accumulates ∅ tm 2 1 3 0 0 1) as ((E1 & _) & _ & E2 & _).
  - unfold moderate. repeat constructor; cbn; lia.
  - split; [exact E1 | exact E2].
Defined.

(** X19: in a league that lists no Team twice, a recorded match whose
    goals and statistics are safe integers adds 3 points to the league in
    all, or 2 when drawn, and adds the goals of the match to both the
    goals scored and the goals conceded of the league, so the goal
    differences of the league still sum to what they did; this holds also
    when a Team plays itself, and the statistics summed are those that
    the source computes in binary64 arithmetic. *)
Theorem recordMatch_league_totals th lg home away hg ag now h a :
  NoDup (League.teams lg) ->
  League.getTeam th lg home = Some h ->
  League.getTeam th lg away = Some a ->
  exact_match th lg home away hg ag ->
  let out := League.recordMatch th lg home away hg ag now in
  let th' := fst (snd out) in
  (total Team.points th' (League.teams lg)
   = total Team.points th (League.teams lg) + (if hg =? ag then 2 else 3) /\
   total Team.goalsFor th' (League.teams lg)
   = total Team.goalsFor th (League.teams lg) + (hg + ag) /\
   total Team.goalsAgainst th' (League.teams lg)
   = total Team.goalsAgainst th (League.teams lg) + (hg + ag) /\
   total Team.goalsFor th' (League.teams lg)
   - total Team.goalsAgainst th' (League.teams lg)
   = total Team.goalsFor th (League.teams lg)
     - total Team.goalsAgainst th (League.teams lg)) /\
  League64.recordMatch (League64.of_heap th) (League64.of_model lg)
    home away (Number.of_Z hg) (Number.of_Z ag) now
  = League64.of_outcome out.
Proof.
  intros Hnd Hh Ha Hex. cbn zeta.
  pose proof (recordMatch_totals th lg home away hg ag now h a Hnd Hh Ha)
    as (Hp & Hf & Hg).
  cbn zeta in *. split.
  - repeat split; try assumption. lia.
  - apply recordMatch_refines, Hex.
Qed.

Lemma recordMatch_league_totals_witness :
  let lg := table_league [1%positive; 2%positive; 3%positive] in
  let th' := fst (snd (League.recordMatch table_teams lg "T1" "T3" 2 2 1000)) in
  total Team.points th' (League.teams lg)
  = total Team.points table_teams (League.teams lg) + 2.
Proof.
  intros lg th'.
  refine (proj1 (proj1 (recordMatch_league_totals table_teams lg "T1" "T3"
                          2 2 1000 1%positive 3%positive _ _ _ _))).
  - apply (bool_decide_unpack _). vm_compute. exact I.
  - reflexivity.
  - reflexivity.
  - exact_match_at_state.
Defined.

(** X21: in a league that lists no Team twice, after a series of matches
    all of whose goals and statistics are safe integers, the goal
    differences of the league sum to what they did at the start, and the
    league has gained between 2 and 3 points for every match recorded;
    the statistics are those that the source computes in binary64
    arithmetic. *)
Theorem play_totals th lg xs :
  NoDup (League.teams lg) ->
  exact_series (th, lg) xs ->
  let s := play (th, lg) xs in
  let k := Z.of_nat (length (List.filter (resolvable th lg) xs)) in
  (total Team.goalsFor (fst s) (League.teams lg)
   - total Team.goalsAgainst (fst s) (League.teams lg)
   = total Team.goalsFor th (League.teams lg)
     - total Team.goalsAgainst th (League.teams lg) /\
   2 * k <= total Team.points (fst s) (League.teams lg)
            - total Team.points th (League.teams lg) <= 3 * k) /\
  play64 (League64.of_state (th, lg)) xs = League64.of_state s.
Proof.
  intros Hnd Hex. cbn zeta. split.
  - apply play_totals_from, Hnd.
  - apply play_refines, Hex.
Qed.

Lemma play_totals_witness :
  let lg := table_league [1%positive; 2%positive; 3%positive] in
  let xs := [mk_fixture "T1" "T2" 1 1 10; mk_fixture "T9" "T2" 5 0 20;
             mk_fixture "T3" "T1" 0 4 30] in
  let s := play (table_teams, lg) xs in
  total Team.goalsFor (fst s) (League.teams lg)
  - total Team.goalsAgainst (fst s) (League.teams lg)
  = total Team.goalsFor table_teams (League.teams lg)
    - total Team.goalsAgainst table_teams (League.teams lg).
Proof.
  intros lg xs s.
  refine (proj1 (proj1 (play_totals table_teams lg xs _ _))).
  - apply (bool_decide_unpack _). vm_compute. exact I.
  - subst xs. cbn [exact_series].
    split; [exact_match_at_state|]. split; [exact_match_at_state|].
    split; [exact_match_at_state | exact I].
Defined.

(** X24: the snapshot of a Team shows its Players as they are now, one
    row per roster entry in roster order; its goal difference is goals
    for minus goals against, also in the source's binary64 arithmetic,
    when these and their difference are safe integers; what is written to
    a Player who is not on the roster does not show in it. *)
Theorem getTeamInfo_reads_roster ph tm :
  (forall ps : list Player.t,
     Forall2 (fun l p => ph !! l = Some p) (Team.players tm) ps ->
     Team.i_players (Team.getTeamInfo ph tm) = map Player.getPlayerInfo ps) /\
  (safe_integer (Team.goalsFor tm) ->
   safe_integer (Team.goalsAgainst tm) ->
   safe_integer (Team.goalsFor tm - Team.goalsAgainst tm) ->
   Team.i_goalDifference (Team.i_stats (Team.getTeamInfo ph tm))
   = Team.goalsFor tm - Team.goalsAgainst tm /\
   Team64.i_goalDifference (Team64.getTeamInfo_stats (Team64.of_model tm))
   = Number.of_Z (Team.goalsFor tm - Team.goalsAgainst tm)) /\
  (forall l (q : Player.t),
     l ∉ Team.players tm ->
     Team.getTeamInfo (<[l := q]> ph) tm = Team.getTeamInfo ph tm).
Proof.
  destruct (getTeamInfo_roster ph tm) as (Hrows & Hgd & Hframe).
  split; [exact Hrows|]. split; [|exact Hframe].
  intros Hf Ha Hd. split; [exact Hgd|].
  unfold Team64.getTeamInfo_stats, Team64.of_model. cbn.
  apply sub_exact; assumption.
Qed.

Lemma getTeamInfo_reads_roster_witness :
  let tm := Team.updateStats (Team.constructor "T2" None None) 0 1 3 in
  Team.i_goalDifference (Team.i_stats (Team.getTeamInfo ∅ tm)) = -1 /\
  Team64.i_goalDifference (Team64.getTeamInfo_stats (Team64.of_model tm))
  = Number.of_Z (-1).
Proof.
  intros tm.
  destruct (getTeamInfo_reads_roster ∅ tm) as (_ & Hgd & _).
  apply Hgd; unfold safe_integer; cbn; lia.
Defined.

End ExactClaims.
